(** * Parcel scoring engine of geo_bot: a shallow embedding

    The development follows [bot/services/metrics.py] (flood-risk heuristic,
    normalised sub-scores, composite score, risk and checklist rules) and
    [bot/services/dem.py] (elevation sampling grid and elevation statistics).

    Numbers.  Python [float] values are read as exact rationals ([Q]): every
    threshold of the source (10, 30, 100, 300, -2.0, 0.5, ...) is compared
    exactly, and the arithmetic of the scores is carried out without rounding.
    Python [int] values are [Z].  A value that may be [None] (or a dictionary
    key that may be absent) is an [option]. *)

From Stdlib Require Import ZArith QArith Qround Qabs Qminmax.
From Stdlib Require Import List String Bool Lia Lqa DecimalString.
From Stdlib Require Reals Lra.
Import ListNotations.

Local Open Scope Q_scope.

(** ** Python numerics *)

Module PyNum.

(** [a < b] and [a <= b] on floats, as booleans. *)
Definition Qltb (a b : Q) : bool := negb (Qle_bool b a).
Definition Qleb (a b : Q) : bool := Qle_bool a b.

(** [int(x)] on a float: truncation towards zero. *)
Definition py_int (x : Q) : Z :=
  if Qle_bool 0 x then Qfloor x else Qceiling x.

(** [round(x)] on a float: the nearest integer, ties to the even one. *)
Definition py_round (x : Q) : Z :=
  let f := Qfloor x in
  match Qcompare (x - inject_Z f) (1 # 2) with
  | Lt => f
  | Gt => (f + 1)%Z
  | Eq => if Z.even f then f else (f + 1)%Z
  end.

(** Truth value of an optional float: [None] and [0.0] are falsy. *)
Definition py_truthy (d : option Q) : bool :=
  match d with
  | None => false
  | Some x => negb (Qeq_bool x 0)
  end.

(** [a or b] *)
Definition py_or (a b : option Q) : option Q :=
  if py_truthy a then a else b.

(** [str(n)] for an integer, as used by an f-string. *)
Definition py_str (n : Z) : string := NilZero.string_of_int (Z.to_int n).

End PyNum.

Import PyNum.

Infix "<?" := Qltb (at level 70, no associativity) : Q_scope.
Infix "<=?" := Qleb (at level 70, no associativity) : Q_scope.

(** ** services/metrics.py *)

Module Metrics.

(** *** Flood risk *)

Definition flood_risk_pct (d_water_m rel_low_m slope_pct : option Q) : Z :=
  let r := 0%Z in
  let r :=
    match d_water_m with
    | Some d =>
        if d <? 10 then (r + 60)%Z
        else if d <? 30 then (r + 45)%Z
        else if d <? 100 then (r + 25)%Z
        else if d <? 300 then (r + 10)%Z
        else r
    | None => r
    end in
  let r :=
    match rel_low_m with
    | Some v =>
        if v <=? -2.0 then (r + 35)%Z
        else if v <=? -1.0 then (r + 20)%Z
        else if v <=? -0.5 then (r + 10)%Z
        else r
    | None => r
    end in
  let r :=
    match slope_pct with
    | Some s => if s <=? 0.5 then (r + 5)%Z else r
    | None => r
    end in
  Z.min 100 r.

Definition label_low : string := "низкий".
Definition label_medium : string := "средний".
Definition label_high : string := "высокий".

Definition _risk_level_label (pct : Z) : string :=
  if (pct <? 35)%Z then label_low
  else if (pct <? 65)%Z then label_medium
  else label_high.

(** *** The metric dictionary read by [build_risks]

    [None] in a field stands for a key that is absent or holds [None];
    both are what [m.get(key)] returns as [None]. *)

Record dem_stats := mk_dem_stats {
  elev_min : option Q;
  elev_max : option Q;
  elev_med : option Q;
  elev_p95 : option Q;
  slope_indicative_pct : option Q;
  rel_lowness_m : option Q
}.

(** The empty dictionary [{}]. *)
Definition dem_empty : dem_stats := mk_dem_stats None None None None None None.

Record metric_set := mk_metric_set {
  touches_road : option bool;
  facade_len_m : option Q;
  d_road_m : option Q;
  d_water_m : option Q;
  d_stop_m : option Q;
  d_place_m : option Q;
  d_power_m : option Q;
  d_rail_m : option Q;
  d_gas_m : option Q;
  d_industrial_m : option Q;
  d_landfill_m : option Q;
  d_wastewater_m : option Q;
  d_cemetery_m : option Q;
  dem : option dem_stats;
  risk_flood_pct : option Z   (* m["risk"]["flood_pct"] *)
}.

(** [m.setdefault("risk", {})["flood_pct"] = fr] *)
Definition set_risk_flood_pct (m : metric_set) (fr : Z) : metric_set :=
  {| touches_road := touches_road m;
     facade_len_m := facade_len_m m;
     d_road_m := d_road_m m;
     d_water_m := d_water_m m;
     d_stop_m := d_stop_m m;
     d_place_m := d_place_m m;
     d_power_m := d_power_m m;
     d_rail_m := d_rail_m m;
     d_gas_m := d_gas_m m;
     d_industrial_m := d_industrial_m m;
     d_landfill_m := d_landfill_m m;
     d_wastewater_m := d_wastewater_m m;
     d_cemetery_m := d_cemetery_m m;
     dem := dem m;
     risk_flood_pct := Some fr |}.

(** *** Risk and checklist strings *)

Definition risk_no_road : string :=
  "Нет примыкания к дороге — может потребоваться сервитут/правовой доступ.".
Definition check_no_road : string :=
  "Проверить правовой доступ: статус дороги, сервитут/проезд.".
Definition risk_flood_high (fr : Z) : string :=
  "Высокий риск подтопления (" ++ py_str fr ++ "%). Участок близко к воде/в низине.".
Definition risk_flood_medium (fr : Z) : string :=
  "Средний риск подтопления (" ++ py_str fr ++ "%).".
Definition check_flood : string :=
  "Проверить карты паводков/ПЗУ и водоохранные зоны (региональные ГИС).".
Definition risk_water : string :=
  "Близко к воде (<100 м) — вероятны ограничения водоохранной/прибрежной зоны.".
Definition check_water : string :=
  "Сверить границы и режимы водоохранной/прибрежной зон.".
Definition risk_power : string :=
  "ЛЭП ближе 50 м — возможны ограничения охранной зоны.".
Definition check_power : string :=
  "Уточнить класс напряжения и ширину охранной зоны ЛЭП.".
Definition risk_rail : string :=
  "Близость железной дороги (<200 м) — шум/вибрация.".
Definition check_rail : string :=
  "Проверить шум/вибрации, ночные грузовые поезда.".
Definition risk_gas : string :=
  "Газопровод ближе 50 м — ограничения охранной зоны.".
Definition check_gas : string :=
  "Проверить наличие охранной зоны и запреты на строительство.".
Definition risk_industrial : string :=
  "Промзона рядом (<500 м) — шум/запах/трафик.".
Definition check_industrial : string :=
  "Проверить тип предприятий и СЗЗ (санитарно‑защитные зоны).".
Definition risk_landfill : string :=
  "Полигон ТБО/свалка вблизи (<1 км) — запах/ветровой мусор.".
Definition check_landfill : string :=
  "Проверить статус полигона, розу ветров.".
Definition risk_wastewater : string :=
  "Очистные сооружения рядом (<700 м) — возможен запах.".
Definition check_wastewater : string :=
  "Проверить СЗЗ очистных.".
Definition risk_cemetery : string :=
  "Кладбище рядом (<300 м) — чувствительный объект.".
Definition check_cemetery : string :=
  "Учесть субъективные факторы, СЗЗ.".
Definition risk_steep : string :=
  "Крутой уклон (>8%) — значительные земляные работы.".
Definition check_steep : string :=
  "Оценить планировку/дренаж, удобный въезд.".
Definition risk_flat : string :=
  "Очень малый уклон (<0.3%) — возможен застой воды.".
Definition check_flat : string :=
  "Предусмотреть ливнёвку/подсыпку.".
Definition risk_facade : string :=
  "Узкий фасад (<8 м) — сложный въезд/разворот техники.".
Definition check_facade : string :=
  "Проверить вариант размещения ворот/въезда, нормы отступов.".
Definition risk_far_infra : string :=
  "Слабая инфраструктура — далеко до остановки/населённого пункта.".
Definition check_far_infra : string :=
  "Оценить время в пути, сезонную доступность/снегочистку.".

(** *** build_risks

    The function appends to two lists and may write [risk.flood_pct] into
    the dictionary it was given; the three are threaded as one state. *)

Record rstate := mk_rstate {
  st_m : metric_set;
  st_risks : list string;
  st_checks : list string
}.

Definition append_risk (s : string) (st : rstate) : rstate :=
  mk_rstate (st_m st) (st_risks st ++ [s]) (st_checks st).

Definition append_check (s : string) (st : rstate) : rstate :=
  mk_rstate (st_m st) (st_risks st) (st_checks st ++ [s]).

Definition store_flood_pct (fr : Z) (st : rstate) : rstate :=
  mk_rstate (set_risk_flood_pct (st_m st) fr) (st_risks st) (st_checks st).

(** [dem = m.get("dem", {}) or {}] *)
Definition dem_of (m : metric_set) : dem_stats :=
  match dem m with
  | Some d => d
  | None => dem_empty
  end.

(** Truth value of [m.get("touches_road")]. *)
Definition touches (m : metric_set) : bool :=
  match touches_road m with
  | Some b => b
  | None => false
  end.

(** [m.get(k) is not None and float(m[k]) < t] *)
Definition nearer (d : option Q) (t : Q) : bool :=
  match d with
  | Some x => x <? t
  | None => false
  end.

(** [m.get(k) and float(m[k]) > t] *)
Definition farther (d : option Q) (t : Q) : bool :=
  match d with
  | Some x => py_truthy d && (t <? x)
  | None => false
  end.

(** [float(a or b)] *)
Definition py_or_default (a : option Q) (b : Q) : Q :=
  match py_or a (Some b) with
  | Some x => x
  | None => b
  end.

Definition rule_access (st : rstate) : rstate :=
  if negb (touches (st_m st))
  then append_check check_no_road (append_risk risk_no_road st)
  else st.

Definition rule_flood (st : rstate) : rstate :=
  let m := st_m st in
  let '(fr, st) :=
    match risk_flood_pct m with
    | Some fr => (fr, st)
    | None =>
        let fr := flood_risk_pct (d_water_m m) (rel_lowness_m (dem_of m))
                                 (slope_indicative_pct (dem_of m)) in
        (fr, store_flood_pct fr st)
    end in
  let st :=
    if (65 <=? fr)%Z then append_risk (risk_flood_high fr) st
    else if (35 <=? fr)%Z then append_risk (risk_flood_medium fr) st
    else st in
  append_check check_flood st.

Definition rule_water (st : rstate) : rstate :=
  if nearer (d_water_m (st_m st)) 100
  then append_check check_water (append_risk risk_water st)
  else st.

Definition rule_power (st : rstate) : rstate :=
  if nearer (d_power_m (st_m st)) 50
  then append_check check_power (append_risk risk_power st)
  else st.

Definition rule_rail (st : rstate) : rstate :=
  if nearer (d_rail_m (st_m st)) 200
  then append_check check_rail (append_risk risk_rail st)
  else st.

Definition rule_gas (st : rstate) : rstate :=
  if nearer (d_gas_m (st_m st)) 50
  then append_check check_gas (append_risk risk_gas st)
  else st.

Definition rule_industrial (st : rstate) : rstate :=
  if nearer (d_industrial_m (st_m st)) 500
  then append_check check_industrial (append_risk risk_industrial st)
  else st.

Definition rule_landfill (st : rstate) : rstate :=
  if nearer (d_landfill_m (st_m st)) 1000
  then append_check check_landfill (append_risk risk_landfill st)
  else st.

Definition rule_wastewater (st : rstate) : rstate :=
  if nearer (d_wastewater_m (st_m st)) 700
  then append_check check_wastewater (append_risk risk_wastewater st)
  else st.

Definition rule_cemetery (st : rstate) : rstate :=
  if nearer (d_cemetery_m (st_m st)) 300
  then append_check check_cemetery (append_risk risk_cemetery st)
  else st.

Definition rule_slope (st : rstate) : rstate :=
  let slope := py_or_default (slope_indicative_pct (dem_of (st_m st))) 0.0 in
  if 8.0 <=? slope
  then append_check check_steep (append_risk risk_steep st)
  else if slope <=? 0.3
  then append_check check_flat (append_risk risk_flat st)
  else st.

Definition rule_facade (st : rstate) : rstate :=
  let m := st_m st in
  let facade := match facade_len_m m with Some f => f | None => 0 end in
  if touches m && (facade <? 8)
  then append_check check_facade (append_risk risk_facade st)
  else st.

Definition rule_far_infra (st : rstate) : rstate :=
  let m := st_m st in
  let far_infra := farther (d_stop_m m) 2000 || farther (d_place_m m) 5000 in
  if far_infra
  then append_check check_far_infra (append_risk risk_far_infra st)
  else st.

(** The state reached just before [checks = list(dict.fromkeys(checks))]. *)
Definition build_risks_run (metric_set : metric_set) : rstate :=
  let st := mk_rstate metric_set [] [] in
  let st := rule_access st in
  let st := rule_flood st in
  let st := rule_water st in
  let st := rule_power st in
  let st := rule_rail st in
  let st := rule_gas st in
  let st := rule_industrial st in
  let st := rule_landfill st in
  let st := rule_wastewater st in
  let st := rule_cemetery st in
  let st := rule_slope st in
  let st := rule_facade st in
  let st := rule_far_infra st in
  st.

(** [list(dict.fromkeys(l))]: keys are inserted left to right; a key
    that is already present keeps its place. *)
Definition dict_fromkeys (l : list string) : list string :=
  fold_left
    (fun keys k => if existsb (String.eqb k) keys then keys else keys ++ [k])
    l [].

Definition build_risks (metric_set : metric_set) : list string * list string :=
  let st := build_risks_run metric_set in
  (st_risks st, dict_fromkeys (st_checks st)).

(** *** Scoring (the second half of compute_all) *)

Definition norm_inv_dist (d : option Q) (good bad : Q) : Q :=
  match d with
  | None => 30
  | Some d =>
      if d <=? good then 100
      else if bad <=? d then 0
      else 100 * (bad - d) / (bad - good)
  end.

Definition score_access (d_road : option Q) : Q :=
  norm_inv_dist (py_or d_road (Some 5000)) 300 5000.

Definition score_slope (slope_pct : Q) : Q :=
  Qmax 0 (100 - Qmin 100 (Qabs (slope_pct - 3) * 15)).

Definition score_flood (flood_pct : Z) : Z := Z.max 0 (100 - flood_pct).

Definition score_infra (d_stop d_place : option Q) : Q :=
  0.6 * norm_inv_dist (py_or d_stop (Some 4000)) 500 4000
  + 0.4 * norm_inv_dist (py_or d_place (Some 15000)) 2000 15000.

Definition score_power (d_power : option Q) : Q :=
  norm_inv_dist (py_or d_power (Some 5000)) 300 5000.

Definition score_total (score_access score_flood score_slope
                        score_infra score_power : Q) (touches_road : bool) : Z :=
  py_round
    (0.25 * score_access + 0.20 * score_flood + 0.20 * score_slope
     + 0.15 * score_infra + 0.10 * score_power
     + 0.10 * (if touches_road then 100 else 40)).

(** What compute_all has obtained from the geometry library when the
    scoring starts: for each feature group the result of [min_distance]
    ([None] for an empty group), and the length of the parcel boundary
    inside the 10 m road buffer ([None] when there is no road at all). *)
Record geo_inputs := mk_geo_inputs {
  md_roads_major : option Q;
  md_roads_all : option Q;
  md_waters : option Q;
  md_powers : option Q;
  md_stops : option Q;
  md_places : option Q;
  md_rails : option Q;
  md_gas : option Q;
  md_industrial : option Q;
  md_landfill : option Q;
  md_wastewater : option Q;
  md_cemetery : option Q;
  roads_buf_inter_len : option Q
}.

Record score := mk_score {
  access : Q;
  flood : Q;
  slope : Q;
  infra : Q;
  power : Q;
  total : Z
}.

Record metric_result := mk_metric_result {
  res_metrics : metric_set;
  res_score : score;
  risks_list : list string;
  checks_list : list string
}.

Definition compute_all (g : geo_inputs) (dem_stats : dem_stats) : metric_result :=
  let d_road := py_or (md_roads_major g) (md_roads_all g) in
  let d_water := md_waters g in
  let d_power := md_powers g in
  let d_stop := md_stops g in
  let d_place := md_places g in
  let facade_len_m :=
    match roads_buf_inter_len g with Some l => l | None => 0.0 end in
  let touches_road :=
    match roads_buf_inter_len g with Some l => 0.5 <? l | None => false end in
  let slope_pct :=
    match slope_indicative_pct dem_stats with Some s => s | None => 5.0 end in
  let rel_low :=
    match rel_lowness_m dem_stats with Some v => v | None => 0.0 end in
  let flood_pct := flood_risk_pct d_water (Some rel_low) (Some slope_pct) in
  let s_access := score_access d_road in
  let s_slope := score_slope slope_pct in
  let s_flood := score_flood flood_pct in
  let s_infra := score_infra d_stop d_place in
  let s_power := score_power d_power in
  let s_total :=
    score_total s_access (inject_Z s_flood) s_slope s_infra s_power touches_road in
  let tmp :=
    {| touches_road := Some touches_road;
       facade_len_m := Some facade_len_m;
       d_road_m := d_road;
       d_water_m := d_water;
       d_stop_m := d_stop;
       d_place_m := d_place;
       d_power_m := d_power;
       d_rail_m := md_rails g;
       d_gas_m := md_gas g;
       d_industrial_m := md_industrial g;
       d_landfill_m := md_landfill g;
       d_wastewater_m := md_wastewater g;
       d_cemetery_m := md_cemetery g;
       dem := Some dem_stats;
       risk_flood_pct := Some flood_pct |} in
  let '(risks, checks) := build_risks tmp in
  {| res_metrics := tmp;
     res_score := mk_score s_access (inject_Z s_flood) s_slope s_infra s_power s_total;
     risks_list := risks;
     checks_list := checks |}.

End Metrics.

(** ** services/dem.py *)

Module Dem.

Import Metrics.

(** Exceptions the sampler can raise, and results of fallible code. *)
Inductive exn := ZeroDivisionError | ValueError.

Inductive result (A : Type) : Type :=
| Ok (a : A)
| Raise (e : exn).
Arguments Ok {A} a.
Arguments Raise {A} e.

Definition bind {A B : Type} (r : result A) (k : A -> result B) : result B :=
  match r with
  | Ok a => k a
  | Raise e => Raise e
  end.

Notation "' p <- r ;; k" := (bind r (fun p => k))
  (at level 61, p pattern, r at next level, right associativity).

(** *** _expand_grid *)

(** [np.linspace(start, stop, num)] *)
Definition linspace (start stop : Q) (num : Z) : list Q :=
  map (fun i => start + inject_Z (Z.of_nat i) * ((stop - start) / inject_Z (num - 1)))
      (seq 0 (Z.to_nat num)).

(** [int(n / k)] for [k = math.sqrt((nx * ny) / max_pts)], where [n] is
    [nx] and [other] is [ny], or the other way round.  With an exact
    square root, [m <= n / k] holds for a natural number [m] exactly when
    [m * m * other <= max_pts * n]; the largest such [m] is the integer
    square root below (see [int_div_k_real]). *)
Definition int_div_k (n other max_pts : Z) : Z :=
  Z.sqrt (max_pts * n / other).

(** The two axis counts, lines 38 to 43. *)
Definition grid_counts (w h step_m : Q) (max_pts : Z) : result (Z * Z) :=
  if Qeq_bool step_m 0 then Raise ZeroDivisionError
  else
    let nx := Z.max 5 (py_int (w / step_m)) in
    let ny := Z.max 5 (py_int (h / step_m)) in
    if (max_pts <? nx * ny)%Z then
      if (max_pts =? 0)%Z then Raise ZeroDivisionError
      else if (max_pts <? 0)%Z then Raise ValueError
      else Ok (Z.max 5 (int_div_k nx ny max_pts),
               Z.max 5 (int_div_k ny nx max_pts))
    else Ok (nx, ny).

Definition bbox := (Q * Q * Q * Q)%type.

Definition _expand_grid (bounds_utm : bbox) (step_m : Q) (max_pts : Z)
  : result (list Q * list Q) :=
  let '(minx, miny, maxx, maxy) := bounds_utm in
  let w := maxx - minx in
  let h := maxy - miny in
  ' (nx, ny) <- grid_counts w h step_m max_pts ;;
  Ok (linspace minx maxx nx, linspace miny maxy ny).

(** *** compute_dem_stats *)

Definition point := (Q * Q)%type.

(** The parcel polygon, seen through the geometry operations that
    compute_dem_stats calls on it. *)
Record parcel := mk_parcel {
  buffer_bounds : Q -> bbox;             (* transform(to_utm, g).buffer(m).bounds *)
  buffer_contains : Q -> point -> bool;  (* area_buffer.contains(Point(x, y)) *)
  parcel_contains : point -> bool;       (* parcel_utm.contains(Point(x, y)) *)
  centroid_utm : point;                  (* transform(to_utm, g.centroid) *)
  to_wgs_tf : point -> point             (* (x, y) to (lon, lat) *)
}.

(** The array reductions of numpy that the statistics use. *)
Record numpy := mk_numpy {
  np_sort : list Q -> list Q;
  np_std : list Q -> Q;
  np_min : list Q -> Q;
  np_max : list Q -> Q;
  np_median : list Q -> Q;
  np_percentile : list Q -> Q -> Q
}.

(** [np.diff] *)
Fixpoint np_diff (l : list Q) : list Q :=
  match l with
  | a :: (b :: _) as t => (b - a) :: np_diff t
  | _ => []
  end.

(** [np.clip(x, lo, hi)] *)
Definition np_clip (x lo hi : Q) : Q := Qmin hi (Qmax lo x).

Definition is_not_none {A : Type} (o : option A) : bool :=
  match o with
  | Some _ => true
  | None => false
  end.

(** The loop of lines 140 to 146; [j] indexes [elev], the recursion
    walks [pts_inside]. *)
Fixpoint partition_loop (pts_inside : list bool) (elev : list (option Q))
         (j : nat) (elev_in elev_all : list Q) : list Q * list Q :=
  match pts_inside with
  | [] => (elev_in, elev_all)
  | inside :: rest =>
      match nth_error elev j with
      | None => (elev_in, elev_all)
      | Some None => partition_loop rest elev (S j) elev_in elev_all
      | Some (Some h) =>
          partition_loop rest elev (S j)
            (if inside then elev_in ++ [h] else elev_in)
            (elev_all ++ [h])
      end
  end.

(** Lines 133 to 147: [None] is the early return on an empty [elev],
    otherwise the pair [(elev_in, elev_all)]. *)
Definition elev_populations (pts_inside : list bool) (elev : list (option Q))
  : option (list Q * list Q) :=
  let elev := filter is_not_none elev in
  match elev with
  | [] => None
  | _ =>
      let '(elev_in, elev_all) := partition_loop pts_inside elev 0 [] [] in
      let elev_in := match elev_in with [] => elev_all | _ => elev_in end in
      Some (elev_in, elev_all)
  end.

Definition zero_stats : dem_stats :=
  {| elev_min := Some 0.0; elev_max := Some 0.0; elev_med := Some 0.0;
     elev_p95 := Some 0.0; slope_indicative_pct := Some 0.0;
     rel_lowness_m := Some 0.0 |}.

Section Sampler.

Variable np : numpy.
(** [_get_elevations]: the elevation lookup, provider fallbacks included. *)
Variable _get_elevations : list point -> list (option Q).

(** Lines 133 to 162. *)
Definition stats_of_lookup (pts_inside : list bool) (elev : list (option Q))
  : result dem_stats :=
  match elev_populations pts_inside elev with
  | None => Ok zero_stats
  | Some (elev_in, elev_all) =>
      let diffs :=
        if (3 <? List.length elev_in)%nat then np_diff (np_sort np elev_in)
        else [0.0] in
      let slope_indicative := np_clip (np_std np diffs) 0 100 in
      match elev_in with
      | [] => Raise ValueError   (* np.min of an empty array *)
      | _ =>
          Ok {| elev_min := Some (np_min np elev_in);
                elev_max := Some (np_max np elev_in);
                elev_med := Some (np_median np elev_in);
                elev_p95 := Some (np_percentile np elev_in 95);
                slope_indicative_pct := Some slope_indicative;
                rel_lowness_m :=
                  Some (np_median np elev_in - np_median np elev_all) |}
      end
  end.

(** Lines 110 to 130: the inside flags and the geographic coordinates of
    the sample points. *)
Definition sample_points (geom_wgs84 : parcel) (step_m buffer_m : Q)
  : result (list bool * list point) :=
  ' (xs, ys) <- _expand_grid (buffer_bounds geom_wgs84 buffer_m) step_m 500 ;;
  let grid := flat_map (fun x => map (fun y => (x, y)) ys) xs in
  let pts_utm := filter (buffer_contains geom_wgs84 buffer_m) grid in
  let pts_inside := map (parcel_contains geom_wgs84) pts_utm in
  let '(pts_utm, pts_inside) :=
    match pts_utm with
    | [] => ([centroid_utm geom_wgs84], [true])
    | _ => (pts_utm, pts_inside)
    end in
  let latlons :=
    map (fun p => let '(lon, lat) := to_wgs_tf geom_wgs84 p in (lat, lon))
        pts_utm in
  Ok (pts_inside, latlons).

Definition compute_dem_stats (geom_wgs84 : parcel) (step_m buffer_m : Q)
  : result dem_stats :=
  ' (pts_inside, latlons) <- sample_points geom_wgs84 step_m buffer_m ;;
  let elev := _get_elevations latlons in
  stats_of_lookup pts_inside elev.

End Sampler.

End Dem.

(** ** The elevation populations as the specification words them *)

Module DemSpec.

(** Every non-null elevation of the lookup result. *)
Fixpoint spec_all_population (elev : list (option Q)) : list Q :=
  match elev with
  | [] => []
  | Some h :: rest => h :: spec_all_population rest
  | None :: rest => spec_all_population rest
  end.

(** The non-null elevations sampled at grid points classified inside the
    parcel: flags and lookup results are paired position by position. *)
Fixpoint spec_inside_population (pts_inside : list bool)
         (elev : list (option Q)) : list Q :=
  match pts_inside, elev with
  | inside :: flags, Some h :: rest =>
      if inside then h :: spec_inside_population flags rest
      else spec_inside_population flags rest
  | _ :: flags, None :: rest => spec_inside_population flags rest
  | _, _ => []
  end.

(** The pair (inside, all), with all substituted for an empty inside. *)
Definition spec_populations (pts_inside : list bool) (elev : list (option Q))
  : list Q * list Q :=
  let all := spec_all_population elev in
  let inside := spec_inside_population pts_inside elev in
  (match inside with [] => all | _ => inside end, all).

End DemSpec.

(** ** The scaling of the grid as the specification words it

    [scale = sqrt(naive_count / ceiling)], over the real numbers. *)

Module GridSpec.

Import Reals.



End GridSpec.

(** ** The rules of build_risks as a table

    A reading of the rule list that the properties below are stated
    against: each rule has a condition on the metric dictionary, a risk
    string (which may quote the flood percentage) and a checklist string.
    The slope rule has two branches with strings of their own and is
    listed as two rows. *)

Module Rules.

Import Metrics.

(** The flood percentage that rule 2 works with: the stored one, or
    else the heuristic evaluated on the dictionary. *)
Definition flood_pct_of (m : metric_set) : Z :=
  match risk_flood_pct m with
  | Some fr => fr
  | None =>
      flood_risk_pct (d_water_m m) (rel_lowness_m (dem_of m))
                     (slope_indicative_pct (dem_of m))
  end.

Definition slope_of (m : metric_set) : Q :=
  py_or_default (slope_indicative_pct (dem_of m)) 0.0.

Definition facade_of (m : metric_set) : Q :=
  match facade_len_m m with
  | Some f => f
  | None => 0
  end.

Record rule := mk_rule {
  fires : metric_set -> bool;
  risk_of : metric_set -> string;
  check_of : string;
  check_always : bool   (* the check is appended whether or not the rule fires *)
}.

Definition r_access : rule :=
  mk_rule (fun m => negb (touches m)) (fun _ => risk_no_road) check_no_road false.
Definition r_flood : rule :=
  mk_rule (fun m => (35 <=? flood_pct_of m)%Z)
          (fun m => if (65 <=? flood_pct_of m)%Z
                    then risk_flood_high (flood_pct_of m)
                    else risk_flood_medium (flood_pct_of m))
          check_flood true.
Definition r_water : rule :=
  mk_rule (fun m => nearer (d_water_m m) 100) (fun _ => risk_water) check_water false.
Definition r_power : rule :=
  mk_rule (fun m => nearer (d_power_m m) 50) (fun _ => risk_power) check_power false.
Definition r_rail : rule :=
  mk_rule (fun m => nearer (d_rail_m m) 200) (fun _ => risk_rail) check_rail false.
Definition r_gas : rule :=
  mk_rule (fun m => nearer (d_gas_m m) 50) (fun _ => risk_gas) check_gas false.
Definition r_industrial : rule :=
  mk_rule (fun m => nearer (d_industrial_m m) 500)
          (fun _ => risk_industrial) check_industrial false.
Definition r_landfill : rule :=
  mk_rule (fun m => nearer (d_landfill_m m) 1000)
          (fun _ => risk_landfill) check_landfill false.
Definition r_wastewater : rule :=
  mk_rule (fun m => nearer (d_wastewater_m m) 700)
          (fun _ => risk_wastewater) check_wastewater false.
Definition r_cemetery : rule :=
  mk_rule (fun m => nearer (d_cemetery_m m) 300)
          (fun _ => risk_cemetery) check_cemetery false.
Definition r_steep : rule :=
  mk_rule (fun m => 8.0 <=? slope_of m) (fun _ => risk_steep) check_steep false.
Definition r_flat : rule :=
  mk_rule (fun m => slope_of m <=? 0.3) (fun _ => risk_flat) check_flat false.
Definition r_facade : rule :=
  mk_rule (fun m => touches m && (facade_of m <? 8))
          (fun _ => risk_facade) check_facade false.
Definition r_far_infra : rule :=
  mk_rule (fun m => farther (d_stop_m m) 2000 || farther (d_place_m m) 5000)
          (fun _ => risk_far_infra) check_far_infra false.

(** The rules in evaluation order. *)
Definition rule_table : list rule :=
  [ r_access; r_flood; r_water; r_power; r_rail; r_gas; r_industrial;
    r_landfill; r_wastewater; r_cemetery; r_steep; r_flat; r_facade;
    r_far_infra ].

Definition rule_risks (m : metric_set) (r : rule) : list string :=
  if fires r m then [risk_of r m] else [].

Definition rule_checks (m : metric_set) (r : rule) : list string :=
  if check_always r || fires r m then [check_of r] else [].

(** A rule, seen as a table row, extends the two lists and leaves the
    dictionary alone. *)
Definition apply_rule (r : rule) (st : rstate) : rstate :=
  mk_rstate (st_m st)
            (st_risks st ++ rule_risks (st_m st) r)
            (st_checks st ++ rule_checks (st_m st) r).

(** The dictionary after the flood rule. *)
Definition flood_store (m : metric_set) : metric_set :=
  match risk_flood_pct m with
  | Some _ => m
  | None => set_risk_flood_pct m (flood_pct_of m)
  end.

(** The rows that follow the flood rule. *)
Definition rules_after_flood : list rule :=
  [ r_water; r_power; r_rail; r_gas; r_industrial; r_landfill;
    r_wastewater; r_cemetery; r_steep; r_flat; r_facade; r_far_infra ].

(** No rule condition holds. *)
Definition no_rule_fires (m : metric_set) : bool :=
  forallb (fun r => negb (fires r m)) rule_table.

(** The elements of [l] whose index is that of a first occurrence:
    [l[i]] is kept exactly when it is not among [l[0..i-1]]. *)
Definition first_occurrences (l : list string) : list string :=
  map snd
    (filter (fun ix => negb (existsb (String.eqb (snd ix)) (firstn (fst ix) l)))
            (combine (seq 0 (List.length l)) l)).

End Rules.

(** ** Inputs used in examples *)

Module Examples.

Import Metrics.

(** A parcel whose boundary lies on a classified road: both road groups
    are at distance 0 and 30 m of the boundary are inside the road buffer. *)
Definition parcel_on_road : geo_inputs :=
  {| md_roads_major := Some 0; md_roads_all := Some 0;
     md_waters := None; md_powers := None; md_stops := None;
     md_places := None; md_rails := None; md_gas := None;
     md_industrial := None; md_landfill := None; md_wastewater := None;
     md_cemetery := None; roads_buf_inter_len := Some 30 |}.

(** A parcel on which no rule condition holds: road-adjacent with a
    20 m frontage, no feature of any risk group in range, a slope figure
    of 3 % and a flood percentage of 0. *)
Definition quiet_parcel : metric_set :=
  {| touches_road := Some true; facade_len_m := Some 20;
     d_road_m := Some 12; d_water_m := None; d_stop_m := None;
     d_place_m := None; d_power_m := None; d_rail_m := None;
     d_gas_m := None; d_industrial_m := None; d_landfill_m := None;
     d_wastewater_m := None; d_cemetery_m := None;
     dem := Some (mk_dem_stats (Some 100) (Some 104) (Some 102) (Some 103)
                               (Some 3) (Some 0));
     risk_flood_pct := Some 0%Z |}.

(** A parcel next to water and a power line, far from any bus stop. *)
Definition wet_parcel : metric_set :=
  {| touches_road := Some false; facade_len_m := Some 0;
     d_road_m := Some 400; d_water_m := Some 8; d_stop_m := Some 2500;
     d_place_m := None; d_power_m := Some 20; d_rail_m := None;
     d_gas_m := None; d_industrial_m := None; d_landfill_m := None;
     d_wastewater_m := None; d_cemetery_m := None;
     dem := Some (mk_dem_stats (Some 100) (Some 104) (Some 102) (Some 103)
                               (Some 0.2) (Some (-2.5)));
     risk_flood_pct := None |}.

(** The lookup when every elevation provider has failed:
    [[None] * len(latlons)]. *)
Definition lookup_all_null (latlons : list Dem.point) : list (option Q) :=
  map (fun _ => None) latlons.

(** A 100 m square parcel in its local metric coordinates; the buffer is
    taken square as well and the reprojection is left out. *)
Definition square_parcel : Dem.parcel :=
  {| Dem.buffer_bounds := fun b => (0 - b, 0 - b, 100 + b, 100 + b);
     Dem.buffer_contains := fun b p =>
       (0 - b <? fst p) && (fst p <? 100 + b) &&
       (0 - b <? snd p) && (snd p <? 100 + b);
     Dem.parcel_contains := fun p =>
       (0 <? fst p) && (fst p <? 100) && (0 <? snd p) && (snd p <? 100);
     Dem.centroid_utm := (50, 50);
     Dem.to_wgs_tf := fun p => p |}.

(** Array reductions in exact arithmetic, for closed examples. *)
Fixpoint insert_sorted (x : Q) (l : list Q) : list Q :=
  match l with
  | [] => [x]
  | y :: t => if Qle_bool x y then x :: l else y :: insert_sorted x t
  end.

Definition sort_q (l : list Q) : list Q := fold_right insert_sorted [] l.

Definition mean_q (l : list Q) : Q :=
  fold_right Qplus 0 l / inject_Z (Z.of_nat (List.length l)).

Definition median_q (l : list Q) : Q :=
  let s := sort_q l in
  let n := List.length s in
  if Nat.even n then (nth (n / 2 - 1) s 0 + nth (n / 2) s 0) / 2
  else nth (n / 2) s 0.

Definition percentile_q (l : list Q) (q : Q) : Q :=
  let s := sort_q l in
  let pos := q / 100 * inject_Z (Z.of_nat (List.length s - 1)) in
  let lo := Z.to_nat (Qfloor pos) in
  let below := nth lo s 0 in
  below + (pos - inject_Z (Qfloor pos)) * (nth (S lo) s below - below).

(** Standard deviation, the square root taken to three decimals. *)
Definition std_q (l : list Q) : Q :=
  let mu := mean_q l in
  let var := mean_q (map (fun x => (x - mu) * (x - mu)) l) in
  inject_Z (Z.sqrt (Qfloor (var * 1000000))) / 1000.

Definition numpy_q : Dem.numpy :=
  {| Dem.np_sort := sort_q;
     Dem.np_std := std_q;
     Dem.np_min := fun l => hd 0 (sort_q l);
     Dem.np_max := fun l => last (sort_q l) 0;
     Dem.np_median := median_q;
     Dem.np_percentile := percentile_q |}.

End Examples.

(** ** Labels in the texts (metrics.py, pdf.py) *)

Module MetricsText.

Import Metrics.

(** metrics.py, [_score_label]. *)
Definition _score_label (v : Z) : string :=
  if (80 <=? v)%Z then "отлично"
  else if (60 <=? v)%Z then "хорошо"
  else if (40 <=? v)%Z then "удовлетворительно"
  else "слабо".



End MetricsText.

Module Pdf.

Import Metrics.

(** pdf.py, [_score_label]. *)
Definition _score_label (v : Z) : string :=
  if (80 <=? v)%Z then "отлично"
  else (if (60 <=? v)%Z then "хорошо"
        else (if (40 <=? v)%Z then "удовлетворительно" else "слабо")).


(** render_report: the list handed to [draw_list] under "Риски". *)
Definition risks_shown (risks : list string) : list string :=
  match risks with
  | [] => ["Существенных рисков не выявлено по доступным данным."%string]
  | _ => risks
  end.

Definition base_checks : list string :=
  [ "Правовой доступ: статус дороги, сервитут/проезд.";
    "ЗОУИТ/ООПТ — по региональным ГИС.";
    "Оффлайн‑проверка рельефа: лужи/следы подтоплений.";
    "Подключение к сетям: техусловия, сроки, стоимость.";
    "Границы участка в натуре: вынос межевых знаков." ]%string.

(** render_report: [full_checks]; the argument is
    [metric_set.get("checks_list")]. *)
Definition full_checks (checks_list : option (list string)) : list string :=
  let checks := match checks_list with
                | Some (c :: l) => c :: l
                | _ => []
                end in
  dict_fromkeys (checks ++ base_checks).

End Pdf.

(** ** The three terms of the flood heuristic *)

Module FloodParts.

(** Points for the distance to water. *)
Definition water_points (d_water_m : option Q) : Z :=
  match d_water_m with
  | Some d =>
      if d <? 10 then 60
      else if d <? 30 then 45
      else if d <? 100 then 25
      else if d <? 300 then 10
      else 0
  | None => 0
  end.

(** Points for the relative lowness. *)
Definition lowness_points (rel_low_m : option Q) : Z :=
  match rel_low_m with
  | Some v =>
      if v <=? -2.0 then 35
      else if v <=? -1.0 then 20
      else if v <=? -0.5 then 10
      else 0
  | None => 0
  end.

(** Points for flat terrain. *)
Definition flat_points (slope_pct : option Q) : Z :=
  match slope_pct with
  | Some s => if s <=? 0.5 then 5 else 0
  | None => 0
  end.

End FloodParts.

(** ** Geometry helpers: [_utm_crs_for], [expand_bbox], the house check *)

Module Geo.



(** [expand_bbox]; [math_cos] and [math_radians] are the library's
    [math.cos] and [math.radians]. *)
Definition expand_bbox (math_cos math_radians : Q -> Q)
           (bbox_wgs84 : Q * Q * Q * Q) (meters : Q) : Q * Q * Q * Q :=
  let '(minx, miny, maxx, maxy) := bbox_wgs84 in
  let lat := (miny + maxy) / 2.0 in
  let dlat := meters / 111000.0 in
  let dlon := meters / (111000.0 * Qmax (math_cos (math_radians lat)) 0.1) in
  (minx - dlon, miny - dlat, maxx + dlon, maxy + dlat).

(** [width, height = sorted(edges)[:2]] for the four edges of the minimum
    rotated rectangle; unpacking fewer than two values is a ValueError,
    here [None]. *)
Definition house_sides (e0 e1 e2 e3 : Q) : option (Q * Q) :=
  match Examples.sort_q [e0; e1; e2; e3] with
  | width :: height :: _ => Some (width, height)
  | _ => None
  end.

(** [can_house_10x10 = (width >= 10 and height >= 10)] *)
Definition can_house_10x10 (e0 e1 e2 e3 : Q) : option bool :=
  match house_sides e0 e1 e2 e3 with
  | Some (width, height) => Some ((10 <=? width) && (10 <=? height))
  | None => None
  end.

(** The cosine at 60 degrees, for a run of [expand_bbox]. *)
Definition cos_at_60 (x : Q) : Q := 0.5.

End Geo.

(** ** Batches and provider fallback (dem.py) *)

Module DemFetch.

Import Dem.

(** [range(0, n, size)] for a list length [n]: empty for a negative step,
    a ValueError for a zero step. *)
Definition range_from_0 (n : nat) (size : Z) : result (list nat) :=
  if (size =? 0)%Z then Raise ValueError
  else if (size <? 0)%Z then Ok []
  else
    let s := Z.to_nat size in
    Ok (map (fun k => (k * s)%nat) (seq 0 ((n + s - 1) / s))).

(** [_chunk]: the slices [lst[i:i+size]] that the generator yields. *)
Definition _chunk {A : Type} (lst : list A) (size : Z) : result (list (list A)) :=
  ' starts <- range_from_0 (List.length lst) size ;;
  Ok (map (fun i => firstn (Z.to_nat size) (skipn i lst)) starts).

(** What a provider call ends with: the elevations, or an exception. *)
Inductive fetched :=
| Fetched (elev : list (option Q))
| FetchFailed.

(** [_get_elevations], over the two providers. *)
Definition _get_elevations
           (_fetch_opentopo _fetch_open_elevation : list point -> fetched)
           (latlons : list point) : list (option Q) :=
  match _fetch_opentopo latlons with
  | Fetched elev => elev
  | FetchFailed =>
      match _fetch_open_elevation latlons with
      | Fetched elev => elev
      | FetchFailed => repeat None (List.length latlons)
      end
  end.

End DemFetch.

(** ** Map features: _collect_geoms and the first half of compute_all *)

Module Overpass.

Import Metrics.

Local Open Scope string_scope.

(** A tag dictionary and [tags.get(k)]. *)
Definition tags := list (string * string).

Fixpoint tag_get (t : tags) (k : string) : option string :=
  match t with
  | [] => None
  | (k', v) :: rest => if String.eqb k' k then Some v else tag_get rest k
  end.

(** A coordinate pair [(lon, lat)]. *)
Definition coord := (Q * Q)%type.

(** One element of the Overpass answer; [None] is an absent key. *)
Record element := mk_element {
  el_type : option string;
  el_tags : option tags;
  el_geometry : option (list coord);
  el_lon : option Q;
  el_lat : option Q
}.

Inductive geometry :=
| Polygon (coords : list coord)
| LineString (coords : list coord)
| Point (lon lat : Q).

Inductive error := KeyError | ShapelyError.

Inductive outcome (A : Type) : Type :=
| Done (a : A)
| Raised (e : error).
Arguments Done {A} a.
Arguments Raised {A} e.

(** [v == s], [v in l] and the truth value of [v] for [v = tags.get(k)]. *)
Definition str_is (v : option string) (s : string) : bool :=
  match v with
  | Some x => String.eqb x s
  | None => false
  end.

Definition str_in (v : option string) (l : list string) : bool :=
  match v with
  | Some x => existsb (String.eqb x) l
  | None => false
  end.

Definition str_truthy (v : option string) : bool :=
  match v with
  | Some x => negb (String.eqb x "")
  | None => false
  end.

(** [a != b] on coordinate tuples is the negation of this. *)
Definition coord_eqb (a b : coord) : bool :=
  Qeq_bool (fst a) (fst b) && Qeq_bool (snd a) (snd b).

(** The condition under which a way is built as a closed area. *)
Definition area_like (t : tags) : bool :=
  str_is (tag_get t "area") "yes"
  || str_is (tag_get t "natural") "water"
  || str_in (tag_get t "landuse") ["reservoir"; "landfill"; "industrial"; "cemetery"].

(** [if coords and coords[0] != coords[-1]: coords = coords + [coords[0]]] *)
Definition close_ring (coords : list coord) : list coord :=
  match coords with
  | [] => []
  | c0 :: _ =>
      if negb (coord_eqb c0 (last coords c0)) then (coords ++ [c0])%list
      else coords
  end.

Section Collect.

(** Whether shapely builds a polygon, or a line, from the coordinates
    without raising. *)
Variable polygon_ok : list coord -> bool.
Variable linestring_ok : list coord -> bool.

Definition make_linestring (coords : list coord) : outcome (list geometry) :=
  if linestring_ok coords then Done [LineString coords] else Raised ShapelyError.

(** What the body of the loop appends for an element that passed the
    filter. *)
Definition geoms_of_element (el : element) : outcome (list geometry) :=
  let tags := match el_tags el with Some t => t | None => [] end in
  let typ := el_type el in
  match el_geometry el with
  | Some coords =>
      if str_is typ "way" then
        if area_like tags then
          let coords := close_ring coords in
          if polygon_ok coords then Done [Polygon coords]
          else make_linestring coords
        else make_linestring coords
      else Done []
  | None =>
      if str_is typ "node" then
        match el_lon el, el_lat el with
        | Some lon, Some lat => Done [Point lon lat]
        | _, _ => Raised KeyError
        end
      else Done []
  end.

Fixpoint collect_loop (elements : list element)
         (filter_fn : tags -> option string -> bool)
         (geoms : list geometry) : outcome (list geometry) :=
  match elements with
  | [] => Done geoms
  | el :: rest =>
      let tags := match el_tags el with Some t => t | None => [] end in
      if negb (filter_fn tags (el_type el)) then collect_loop rest filter_fn geoms
      else
        match geoms_of_element el with
        | Done g => collect_loop rest filter_fn (geoms ++ g)%list
        | Raised e => Raised e
        end
  end.

(** Whether the loop body appends a geometry for the element: a way
    with a geometry, or a node without one. *)
Definition yields_geometry (el : element) : bool :=
  match el_geometry el with
  | Some _ => str_is (el_type el) "way"
  | None => str_is (el_type el) "node"
  end.

Definition passes (filter_fn : tags -> option string -> bool) (el : element) : bool :=
  filter_fn (match el_tags el with Some t => t | None => [] end) (el_type el).

(** The argument is [overpass_data.get("elements")]. *)
Definition _collect_geoms (elements : option (list element))
           (filter_fn : tags -> option string -> bool)
  : outcome (list geometry) :=
  collect_loop (match elements with Some l => l | None => [] end) filter_fn [].

(** *** The filters of compute_all *)

Definition ROAD_TAGS_MAJOR : list string :=
  ["motorway"; "trunk"; "primary"; "secondary"].
Definition ROAD_TAGS_ALL : list string :=
  (ROAD_TAGS_MAJOR ++ ["tertiary"; "unclassified"; "residential"; "service"])%list.

Definition f_roads_major (t : tags) (typ : option string) : bool :=
  str_in (tag_get t "highway") ROAD_TAGS_MAJOR && str_is typ "way".
Definition f_roads_all (t : tags) (typ : option string) : bool :=
  str_in (tag_get t "highway") ROAD_TAGS_ALL && str_is typ "way".
Definition f_waters (t : tags) (typ : option string) : bool :=
  str_truthy (tag_get t "waterway")
  || str_is (tag_get t "natural") "water"
  || str_is (tag_get t "landuse") "reservoir".
Definition f_powers (t : tags) (typ : option string) : bool :=
  str_is (tag_get t "power") "line".
Definition f_subst (t : tags) (typ : option string) : bool :=
  str_is (tag_get t "power") "substation".
Definition f_stops (t : tags) (typ : option string) : bool :=
  str_is (tag_get t "highway") "bus_stop"
  || str_is (tag_get t "public_transport") "stop_position".
Definition f_places (t : tags) (typ : option string) : bool :=
  str_in (tag_get t "place") ["hamlet"; "village"; "town"].
Definition f_rails (t : tags) (typ : option string) : bool :=
  str_is (tag_get t "railway") "rail".
Definition f_gas_pipes (t : tags) (typ : option string) : bool :=
  str_is (tag_get t "man_made") "pipeline" || str_is (tag_get t "pipeline") "gas".
Definition f_industrial (t : tags) (typ : option string) : bool :=
  str_is (tag_get t "landuse") "industrial".
Definition f_landfill (t : tags) (typ : option string) : bool :=
  str_is (tag_get t "landuse") "landfill".
Definition f_wastewater (t : tags) (typ : option string) : bool :=
  str_is (tag_get t "man_made") "wastewater_plant"
  || str_in (tag_get t "amenity") ["sewage_plant"; "waste_disposal"].
Definition f_cemetery (t : tags) (typ : option string) : bool :=
  str_is (tag_get t "amenity") "grave_yard"
  || str_is (tag_get t "landuse") "cemetery".

(** *** The geometry library, as compute_all uses it *)

(** [transform(to_utm, g)] *)
Variable to_utm : geometry -> geometry.
(** [float(parcel_utm.distance(unary_union(candidates)))] *)
Variable parcel_distance : list geometry -> Q.
(** For [inter], the parcel boundary cut with the union of the 10 m
    buffers of the roads: [inter.is_empty] and [inter.length]. *)
Variable inter_is_empty : list geometry -> bool.
Variable inter_length : list geometry -> Q.

Definition min_distance (candidates : list geometry) : option Q :=
  match candidates with
  | [] => None
  | _ => Some (parcel_distance candidates)
  end.

Definition bind {A B : Type} (r : outcome A) (k : A -> outcome B) : outcome B :=
  match r with
  | Done a => k a
  | Raised e => Raised e
  end.

(** Lines 253 to 307 of compute_all: from the Overpass answer to the
    distances and the road-buffer length that the scoring reads. *)
Definition geo_inputs_of (elements : option (list element)) : outcome geo_inputs :=
  bind (_collect_geoms elements f_roads_major) (fun roads_major =>
  bind (_collect_geoms elements f_roads_all) (fun roads_all =>
  bind (_collect_geoms elements f_waters) (fun waters =>
  bind (_collect_geoms elements f_powers) (fun powers =>
  bind (_collect_geoms elements f_subst) (fun subst =>
  bind (_collect_geoms elements f_stops) (fun stops =>
  bind (_collect_geoms elements f_places) (fun places =>
  bind (_collect_geoms elements f_rails) (fun rails =>
  bind (_collect_geoms elements f_gas_pipes) (fun gas_pipes =>
  bind (_collect_geoms elements f_industrial) (fun industrial =>
  bind (_collect_geoms elements f_landfill) (fun landfill =>
  bind (_collect_geoms elements f_wastewater) (fun wastewater =>
  bind (_collect_geoms elements f_cemetery) (fun cemetery =>
  let proj_list := map to_utm in
  let r_major_u := proj_list roads_major in
  let r_all_u := proj_list roads_all in
  let waters_u := proj_list waters in
  let powers_u := (proj_list powers ++ proj_list subst)%list in
  let stops_u := proj_list stops in
  let places_u := proj_list places in
  let rails_u := proj_list rails in
  let gas_u := proj_list gas_pipes in
  let industrial_u := proj_list industrial in
  let landfill_u := proj_list landfill in
  let wastewater_u := proj_list wastewater in
  let cemetery_u := proj_list cemetery in
  Done {| md_roads_major := min_distance r_major_u;
          md_roads_all := min_distance r_all_u;
          md_waters := min_distance waters_u;
          md_powers := min_distance powers_u;
          md_stops := min_distance stops_u;
          md_places := min_distance places_u;
          md_rails := min_distance rails_u;
          md_gas := min_distance gas_u;
          md_industrial := min_distance industrial_u;
          md_landfill := min_distance landfill_u;
          md_wastewater := min_distance wastewater_u;
          md_cemetery := min_distance cemetery_u;
          roads_buf_inter_len :=
            match r_all_u with
            | [] => None
            | _ => Some (if inter_is_empty r_all_u then 0.0%Q
                         else inter_length r_all_u)
            end |}))))))))))))).

(** compute_all on an Overpass answer. *)
Definition compute_all_osm (elements : option (list element))
           (dem_stats : dem_stats) : outcome metric_result :=
  bind (geo_inputs_of elements) (fun g => Done (compute_all g dem_stats)).

End Collect.

End Overpass.

(** An Overpass answer: a pond, a residential street, a primary road and
    a bus stop; and the same without the two roads. *)
Module OverpassExamples.

Import Overpass.

Local Open Scope string_scope.

Definition pond : element :=
  mk_element (Some "way") (Some [("natural", "water")])
             (Some [(0, 0); (1, 0); (1, 1)]) None None.

Definition street : element :=
  mk_element (Some "way") (Some [("highway", "residential")])
             (Some [(0, 2); (3, 2)]) None None.

Definition main_road : element :=
  mk_element (Some "way") (Some [("highway", "primary")])
             (Some [(0, 5); (3, 5)]) None None.

Definition bus_stop : element :=
  mk_element (Some "node") (Some [("highway", "bus_stop")]) None (Some 2) (Some 2).

Definition answer : option (list element) :=
  Some [pond; street; main_road; bus_stop].

Definition answer_without_roads : list element := [pond; bus_stop].

Definition always_ok (coords : list coord) : bool := true.

Definition distance_100 (candidates : list geometry) : Q := 100.

Definition never_empty (roads : list geometry) : bool := false.

Definition length_20 (roads : list geometry) : Q := 20.

End OverpassExamples.

(** ** Wrapping and drawing text (pdf.py) *)

Module PdfText.

Section Wrap.

(** A string is a list of characters; [isspace] is Python's [str.isspace]
    on one character and [space] the character of [" "]. *)
Variable char : Type.
Variable isspace : char -> bool.
Variable space : char.

(** [stringWidth(t, font, size)] of reportlab. *)
Variable font : Type.
Variable stringWidth : list char -> font -> Q -> Q.

(** [s.split()]: the maximal runs of characters that are not whitespace;
    [word] is the run being read. *)
Fixpoint split_from (s word : list char) : list (list char) :=
  match s with
  | [] => match word with [] => [] | _ => [word] end
  | c :: rest =>
      if isspace c then
        match word with
        | [] => split_from rest []
        | _ => word :: split_from rest []
        end
      else split_from rest (word ++ [c])
  end.

Definition split (s : list char) : list (list char) := split_from s [].

(** [s.strip()] *)
Fixpoint lstrip (s : list char) : list char :=
  match s with
  | [] => []
  | c :: rest => if isspace c then lstrip rest else s
  end.

Definition rstrip (s : list char) : list char := rev (lstrip (rev s)).

Definition strip (s : list char) : list char := rstrip (lstrip s).

(** [if line: lines.append(line)] *)
Definition append_if_nonempty (lines : list (list char)) (line : list char)
  : list (list char) :=
  match line with
  | [] => lines
  | _ => lines ++ [line]
  end.

(** The loop of wrap_lines over [words], with the lines finished so far
    and the line being filled. *)
Fixpoint wrap_loop (width : Q) (fnt : font) (size : Q)
         (words lines : list (list char)) (line : list char)
  : list (list char) :=
  match words with
  | [] => append_if_nonempty lines line
  | w :: rest =>
      let t := strip (line ++ [space] ++ w) in
      if stringWidth t fnt size <=? width
      then wrap_loop width fnt size rest lines t
      else wrap_loop width fnt size rest (append_if_nonempty lines line) w
  end.

Definition wrap_lines (text : list char) (width : Q) (fnt : font) (size : Q)
  : list (list char) :=
  match text with
  | [] => []
  | _ => wrap_loop width fnt size (split text) [] []
  end.

(** *** The canvas *)

(** The canvas calls that the drawing functions make, in order. *)
Inductive canvas_op :=
| ShowPage
| SetFont (f : font) (size : Q)
| DrawString (x y : Q) (text : list char).

(** [A4[1]] and the module's [F_MAIN]. *)
Variable height : Q.
Variable F_MAIN : font.

(** The loop of draw_paragraph: the canvas log and [y] after the lines. *)
Fixpoint draw_lines (c : list canvas_op) (x y : Q) (lines : list (list char))
         (line_h : Q) (fnt : font) (size margin : Q) : list canvas_op * Q :=
  match lines with
  | [] => (c, y)
  | ln :: rest =>
      let '(c, y) :=
        if y <? margin
        then (c ++ [ShowPage; SetFont F_MAIN size], height - margin)
        else (c, y) in
      draw_lines (c ++ [SetFont fnt size; DrawString x y ln]) x (y - line_h)
                 rest line_h fnt size margin
  end.

Definition draw_paragraph (c : list canvas_op) (x y : Q) (text : list char)
           (width line_h : Q) (fnt : font) (size margin : Q)
  : list canvas_op * Q :=
  draw_lines c x y (wrap_lines text width fnt size) line_h fnt size margin.

Fixpoint draw_list (c : list canvas_op) (x y : Q) (items : list (list char))
         (width line_h : Q) (bullet : list char) (margin size : Q)
  : list canvas_op * Q :=
  match items with
  | [] => (c, y)
  | it :: rest =>
      let '(c, y) :=
        draw_paragraph c x y (bullet ++ it) width line_h F_MAIN size margin in
      draw_list c x y rest width line_h bullet margin size
  end.

(** *** Notions for the statements *)

(** The strings drawn, each with its height on the page. *)
Definition drawn (ops : list canvas_op) : list (Q * list char) :=
  flat_map (fun op => match op with
                      | DrawString _ y text => [(y, text)]
                      | _ => []
                      end) ops.

(** A word: not empty and without whitespace. *)
Definition is_word (w : list char) : Prop :=
  w <> [] /\ Forall (fun c => isspace c = false) w.

(** A string that does not start with whitespace, and one that neither
    starts nor ends with it. *)
Definition starts_nonspace (l : list char) : Prop :=
  match l with
  | [] => True
  | c :: _ => isspace c = false
  end.

Definition trimmed (l : list char) : Prop :=
  starts_nonspace l /\ starts_nonspace (rev l).

End Wrap.

Arguments split_from {char} isspace s word.
Arguments split {char} isspace s.
Arguments lstrip {char} isspace s.
Arguments rstrip {char} isspace s.
Arguments strip {char} isspace s.
Arguments append_if_nonempty {char} lines line.
Arguments wrap_loop {char} isspace space {font} stringWidth width fnt size words lines line.
Arguments wrap_lines {char} isspace space {font} stringWidth text width fnt size.
Arguments draw_lines {char font} height F_MAIN c x y lines line_h fnt size margin.
Arguments draw_paragraph {char} isspace space {font} stringWidth height F_MAIN
  c x y text width line_h fnt size margin.
Arguments draw_list {char} isspace space {font} stringWidth height F_MAIN
  c x y items width line_h bullet margin size.
Arguments drawn {char font} ops.
Arguments is_word {char} isspace w.
Arguments starts_nonspace {char} isspace l.
Arguments trimmed {char} isspace l.
Arguments ShowPage {char font}.
Arguments SetFont {char font} f size.
Arguments DrawString {char font} x y text.

End PdfText.

(** Text of one-byte characters, each half the font size wide. *)
Module PdfTextExamples.

Import PdfText.

Definition ascii_isspace (c : Ascii.ascii) : bool :=
  let n := Ascii.nat_of_ascii c in
  (n =? 32)%nat || ((9 <=? n)%nat && (n <=? 13)%nat).

Definition blank : Ascii.ascii := Ascii.ascii_of_nat 32.

Definition half_size_width (t : list Ascii.ascii) (fnt : unit) (size : Q) : Q :=
  inject_Z (Z.of_nat (List.length t)) * size * 0.5.

Definition sample_text : list Ascii.ascii :=
  list_ascii_of_string "  to be   or not to be ".

End PdfTextExamples.

(** * Properties *)

Import Rules Examples Dem DemSpec GridSpec.

Import Metrics.

(** ** Concrete runs *)

Example py_round_ties :
  py_round 2.5 = 2%Z /\ py_round 3.5 = 4%Z /\ py_round (-0.5) = 0%Z /\
  py_round 2.4 = 2%Z /\ py_round 2.6 = 3%Z.
Proof. repeat split. Qed.

Example py_int_truncates : py_int 2.7 = 2%Z /\ py_int (-2.7) = (-2)%Z.
Proof. split; reflexivity. Qed.

Example flood_risk_pct_runs :
  flood_risk_pct None None None = 0%Z /\
  flood_risk_pct (Some 5) (Some (-3)) (Some 0.1) = 100%Z /\
  flood_risk_pct (Some 99.9) (Some (-1.5)) (Some 0.4) = 50%Z /\
  flood_risk_pct (Some 300) (Some (-0.5)) (Some 0.6) = 10%Z.
Proof. repeat split. Qed.

Example norm_inv_dist_runs :
  norm_inv_dist (Some 300) 300 5000 = 100 /\
  norm_inv_dist (Some 5000) 300 5000 = 0 /\
  norm_inv_dist (Some 2650) 300 5000 == 50 /\
  norm_inv_dist None 300 5000 = 30.
Proof. repeat split. Qed.

Example build_risks_wet_parcel :
  build_risks wet_parcel =
  ([risk_no_road; risk_flood_high 100; risk_water; risk_power; risk_flat;
    risk_far_infra],
   [check_no_road; check_flood; check_water; check_power; check_flat;
    check_far_infra]).
Proof. vm_compute. reflexivity. Qed.

Example compute_all_parcel_on_road :
  total (res_score (compute_all parcel_on_road zero_stats)) = 40%Z.
Proof. vm_compute. reflexivity. Qed.

Example grid_counts_runs :
  grid_counts 500 500 60 500 = Ok (8%Z, 8%Z) /\
  grid_counts 3000 3000 60 500 = Ok (22%Z, 22%Z) /\
  grid_counts 500 500 0 500 = Raise ZeroDivisionError.
Proof. repeat split. Qed.

Example sample_points_square_parcel :
  exists pts_inside latlons,
    sample_points square_parcel 60 200 = Ok (pts_inside, latlons) /\
    List.length pts_inside = 36%nat /\
    List.length (filter (fun b => b) pts_inside) = 4%nat.
Proof. eexists; eexists. split; [vm_compute; reflexivity |]. split; reflexivity. Qed.

(** ** Comparisons and rounding *)

Lemma Qltb_true (a b : Q) : (a <? b) = true <-> a < b.
Proof.
  unfold Qltb. rewrite negb_true_iff, <- not_true_iff_false, Qle_bool_iff.
  split; [apply Qnot_le_lt | apply Qlt_not_le].
Qed.

Lemma Qltb_false (a b : Q) : (a <? b) = false <-> b <= a.
Proof.
  unfold Qltb. rewrite negb_false_iff. apply Qle_bool_iff.
Qed.

Lemma Qleb_true (a b : Q) : (a <=? b) = true <-> a <= b.
Proof. apply Qle_bool_iff. Qed.

Lemma Qleb_false (a b : Q) : (a <=? b) = false <-> b < a.
Proof.
  unfold Qleb. rewrite <- not_true_iff_false, Qle_bool_iff.
  split; [apply Qnot_le_lt | apply Qlt_not_le].
Qed.

(** Turns every boolean comparison among the hypotheses into an order fact. *)
Ltac order_facts :=
  repeat match goal with
    | H : (_ <? _) = true |- _ => apply Qltb_true in H
    | H : (_ <? _) = false |- _ => apply Qltb_false in H
    | H : (_ <=? _) = true |- _ => apply Qleb_true in H
    | H : (_ <=? _) = false |- _ => apply Qleb_false in H
    end.

(** Splits on the first comparison the goal branches on. *)
Ltac split_if :=
  match goal with
  | |- context [if ?c then _ else _] =>
      let E := fresh "E" in destruct c eqn:E
  end.

Lemma Qfloor_bounds (x : Q) :
  inject_Z (Qfloor x) <= x /\ x < inject_Z (Qfloor x) + 1.
Proof.
  split; [apply Qfloor_le |].
  pose proof (Qlt_floor x) as H.
  rewrite inject_Z_plus in H. exact H.
Qed.

Lemma py_round_between (lo hi : Z) (x : Q) :
  inject_Z lo <= x -> x <= inject_Z hi -> (lo <= py_round x <= hi)%Z.
Proof.
  intros Hlo Hhi.
  destruct (Qfloor_bounds x) as [Hf1 Hf2].
  assert (Hlf : (lo <= Qfloor x)%Z).
  { rewrite <- (Qfloor_Z lo). apply Qfloor_resp_le, Hlo. }
  assert (Hfh : (Qfloor x <= hi)%Z).
  { rewrite Zle_Qle. lra. }
  unfold py_round.
  assert (Hup : 0 < x - inject_Z (Qfloor x) -> (Qfloor x + 1 <= hi)%Z).
  { intros Hpos.
    assert (Hlt : inject_Z (Qfloor x) < inject_Z hi) by lra.
    rewrite <- Zlt_Qlt in Hlt. lia. }
  destruct (Qcompare (x - inject_Z (Qfloor x)) (1 # 2)) eqn:E.
  - apply Qeq_alt in E.
    destruct (Z.even (Qfloor x)); [lia |].
    split; [lia | apply Hup; lra].
  - lia.
  - apply Qgt_alt in E. split; [lia | apply Hup; lra].
Qed.

(** ** Flood risk *)

Lemma flood_risk_pct_range (d v s : option Q) :
  (0 <= flood_risk_pct d v s <= 100)%Z.
Proof.
  unfold flood_risk_pct.
  destruct d as [d|], v as [v|], s as [s|]; repeat split_if; lia.
Qed.

Lemma flood_risk_pct_water_antitone (d1 d2 : Q) (v s : option Q) :
  d1 <= d2 ->
  (flood_risk_pct (Some d2) v s <= flood_risk_pct (Some d1) v s)%Z.
Proof.
  intros Hd. unfold flood_risk_pct.
  destruct v as [v|], s as [s|];
    repeat split_if; order_facts; try lia; exfalso; lra.
Qed.

Lemma flood_risk_pct_lowness_antitone (v1 v2 : Q) (d s : option Q) :
  v1 <= v2 ->
  (flood_risk_pct d (Some v2) s <= flood_risk_pct d (Some v1) s)%Z.
Proof.
  intros Hv. unfold flood_risk_pct.
  destruct d as [d|], s as [s|];
    repeat split_if; order_facts; try lia; exfalso; lra.
Qed.

(** C7.  With the other two arguments fixed, [flood_risk_pct] does not
    increase when the (non-null) water distance grows, does not increase
    when the relative-lowness value grows (so it does not decrease as the
    parcel sits lower), and its result always lies between 0 and 100. *)
Theorem flood_risk_pct_monotone_bounded :
  forall (d1 d2 v1 v2 : Q) (d v s : option Q),
    d1 <= d2 -> v1 <= v2 ->
    (flood_risk_pct (Some d2) v s <= flood_risk_pct (Some d1) v s)%Z /\
    (flood_risk_pct d (Some v2) s <= flood_risk_pct d (Some v1) s)%Z /\
    (0 <= flood_risk_pct d v s <= 100)%Z.
Proof.
  intros d1 d2 v1 v2 d v s Hd Hv.
  split; [| split].
  - apply flood_risk_pct_water_antitone, Hd.
  - apply flood_risk_pct_lowness_antitone, Hv.
  - apply flood_risk_pct_range.
Qed.

Lemma flood_risk_pct_monotone_bounded_witness :
  5 <= 50 /\ -3 <= -0.7 /\
  Z.le (flood_risk_pct (Some 50) (Some (-1.5)) (Some 2))
       (flood_risk_pct (Some 5) (Some (-1.5)) (Some 2)) /\
  Z.le (flood_risk_pct (Some 20) (Some (-0.7)) (Some 2))
       (flood_risk_pct (Some 20) (Some (-3)) (Some 2)).
Proof.
  assert (H1 : 5 <= 50) by (unfold Qle; simpl; lia).
  assert (H2 : -3 <= -0.7) by (unfold Qle; simpl; lia).
  split; [exact H1 | split; [exact H2 |]].
  split.
  - exact (proj1 (flood_risk_pct_monotone_bounded
                    5 50 (-3) (-0.7) (Some 20) (Some (-1.5)) (Some 2) H1 H2)).
  - exact (proj1 (proj2 (flood_risk_pct_monotone_bounded
                    5 50 (-3) (-0.7) (Some 20) (Some (-1.5)) (Some 2) H1 H2))).
Defined.

Lemma risk_level_label_cases (pct : Z) :
  ((pct < 35)%Z -> _risk_level_label pct = label_low) /\
  ((35 <= pct < 65)%Z -> _risk_level_label pct = label_medium) /\
  ((65 <= pct)%Z -> _risk_level_label pct = label_high).
Proof.
  unfold _risk_level_label.
  destruct (Z.ltb_spec pct 35), (Z.ltb_spec pct 65);
    repeat split; intros; try reflexivity; lia.
Qed.

(** C2, as the code has it.  For a water distance of exactly 100 m, a
    relative lowness of -1.5 m and a slope-indicative value of 0.4 %,
    [flood_risk_pct] returns min(100, 10 + 20 + 5) = 35: the distance 100
    is not below 100, so it falls in the "< 300 m" tier.  The value 35
    carries the medium label; a percentage is labelled low below 35,
    medium below 65 and high otherwise. *)
Theorem flood_scenario_100m :
  flood_risk_pct (Some 100) (Some (-1.5)) (Some 0.4) = Z.min 100 (10 + 20 + 5) /\
  flood_risk_pct (Some 100) (Some (-1.5)) (Some 0.4) = 35%Z /\
  _risk_level_label (flood_risk_pct (Some 100) (Some (-1.5)) (Some 0.4))
    = label_medium /\
  forall pct : Z,
    ((pct < 35)%Z -> _risk_level_label pct = label_low) /\
    ((35 <= pct < 65)%Z -> _risk_level_label pct = label_medium) /\
    ((65 <= pct)%Z -> _risk_level_label pct = label_high).
Proof.
  repeat split; try reflexivity; apply risk_level_label_cases.
Qed.

Lemma flood_scenario_100m_witness :
  (50 < 65)%Z /\ _risk_level_label 50 = label_medium.
Proof.
  split; [lia |].
  destruct flood_scenario_100m as [_ [_ [_ H]]].
  apply (H 50%Z). lia.
Defined.

(** C2 as stated fails: the scenario does not evaluate to 50. *)
Lemma flood_scenario_100m_not_50 :
  flood_risk_pct (Some 100) (Some (-1.5)) (Some 0.4) <> 50%Z.
Proof. vm_compute. discriminate. Qed.

(** ** Sub-scores and composite score *)

Lemma norm_inv_dist_range (d : option Q) (good bad : Q) :
  good < bad -> 0 <= norm_inv_dist d good bad <= 100.
Proof.
  intros Hgb. unfold norm_inv_dist.
  destruct d as [d|]; [| lra].
  repeat split_if; order_facts; try lra.
  assert (Hden : 0 < bad - good) by lra.
  split.
  - apply Qle_shift_div_l; [exact Hden | lra].
  - apply Qle_shift_div_r; [exact Hden | lra].
Qed.

Lemma score_access_range (d_road : option Q) : 0 <= score_access d_road <= 100.
Proof. apply norm_inv_dist_range. lra. Qed.

Lemma score_power_range (d_power : option Q) : 0 <= score_power d_power <= 100.
Proof. apply norm_inv_dist_range. lra. Qed.

Lemma score_infra_range (d_stop d_place : option Q) :
  0 <= score_infra d_stop d_place <= 100.
Proof.
  unfold score_infra.
  pose proof (norm_inv_dist_range (py_or d_stop (Some 4000)) 500 4000).
  pose proof (norm_inv_dist_range (py_or d_place (Some 15000)) 2000 15000).
  lra.
Qed.

Lemma score_slope_range (slope_pct : Q) : 0 <= score_slope slope_pct <= 100.
Proof.
  unfold score_slope. split; [apply Q.le_max_l |].
  apply Q.max_lub; [lra |].
  assert (H : 0 <= Qmin 100 (Qabs (slope_pct - 3) * 15)).
  { apply Q.min_glb; [lra |].
    pose proof (Qabs_nonneg (slope_pct - 3)). lra. }
  lra.
Qed.

Lemma score_flood_range (flood_pct : Z) :
  (0 <= flood_pct)%Z -> 0 <= inject_Z (score_flood flood_pct) <= 100.
Proof.
  intros H. unfold score_flood.
  change 0 with (inject_Z 0). change 100 with (inject_Z 100).
  rewrite <- !Zle_Qle. lia.
Qed.

(** The access score treats a road distance of 0 as a missing one. *)
Lemma score_access_nonzero (d : Q) :
  ~ d == 0 -> score_access (Some d) = norm_inv_dist (Some d) 300 5000.
Proof.
  intros Hd. unfold score_access, py_or, py_truthy.
  destruct (Qeq_bool d 0) eqn:E; [| reflexivity].
  apply Qeq_bool_iff in E. contradiction.
Qed.

Lemma score_access_null : score_access None == 0.
Proof. reflexivity. Qed.

(** C1, at the input where the code departs from it.  For a road distance
    of 0 the normaliser itself gives 100, but [d_road or 5000] replaces the
    distance 0 by 5000, and the access score that compute_all reports is 0. *)
Theorem score_access_zero_road_distance :
  d_road_m (res_metrics (compute_all parcel_on_road Dem.zero_stats)) = Some 0 /\
  norm_inv_dist (Some 0) 300 5000 = 100 /\
  score_access (Some 0) = 0 /\
  access (res_score (compute_all parcel_on_road Dem.zero_stats)) = 0.
Proof. repeat split. Qed.



(** C10.  Whatever the distances, the road-buffer intersection and the
    elevation statistics are, the composite score that compute_all returns
    is at least 4: no term of the weighted sum is negative and the
    adjacency term is at least 0.10 * 40. *)
Theorem compute_all_total_at_least_4 :
  forall (g : geo_inputs) (dem_stats : dem_stats),
    (4 <= total (res_score (compute_all g dem_stats)))%Z.
Proof.
  intros g ds. unfold compute_all.
  destruct (build_risks _) as [risks checks]. cbn [res_score total].
  set (slope_pct := match slope_indicative_pct ds with Some s => s | None => 5.0 end).
  set (fp := flood_risk_pct _ _ _).
  set (adjacent := match roads_buf_inter_len g with Some l => 0.5 <? l | None => false end).
  pose proof (score_access_range (py_or (md_roads_major g) (md_roads_all g))).
  pose proof (score_slope_range slope_pct).
  pose proof (score_flood_range fp (proj1 (flood_risk_pct_range _ _ _))).
  pose proof (score_infra_range (md_stops g) (md_places g)).
  pose proof (score_power_range (md_powers g)).
  unfold score_total.
  apply (py_round_between 4 100).
  - change (inject_Z 4) with 4. destruct adjacent; lra.
  - change (inject_Z 100) with 100. destruct adjacent; lra.
Qed.

(** ** The rule list of build_risks *)

(** Proves that a rule of the code with one condition is its table row. *)
Ltac row_of rule_def row_def :=
  intros [m rs cs];
  unfold rule_def, apply_rule, rule_risks, rule_checks;
  cbn [fires risk_of check_of check_always row_def orb st_m st_risks st_checks];
  unfold facade_of, append_check, append_risk; cbv zeta;
  match goal with
  | |- context [if ?c then _ else _] => destruct c
  end;
  cbn [st_m st_risks st_checks]; rewrite ?app_nil_r; reflexivity.

Lemma rule_access_row : forall st, rule_access st = apply_rule r_access st.
Proof. row_of rule_access r_access. Qed.

Lemma rule_water_row : forall st, rule_water st = apply_rule r_water st.
Proof. row_of rule_water r_water. Qed.

Lemma rule_power_row : forall st, rule_power st = apply_rule r_power st.
Proof. row_of rule_power r_power. Qed.

Lemma rule_rail_row : forall st, rule_rail st = apply_rule r_rail st.
Proof. row_of rule_rail r_rail. Qed.

Lemma rule_gas_row : forall st, rule_gas st = apply_rule r_gas st.
Proof. row_of rule_gas r_gas. Qed.

Lemma rule_industrial_row :
  forall st, rule_industrial st = apply_rule r_industrial st.
Proof. row_of rule_industrial r_industrial. Qed.

Lemma rule_landfill_row : forall st, rule_landfill st = apply_rule r_landfill st.
Proof. row_of rule_landfill r_landfill. Qed.

Lemma rule_wastewater_row :
  forall st, rule_wastewater st = apply_rule r_wastewater st.
Proof. row_of rule_wastewater r_wastewater. Qed.

Lemma rule_cemetery_row : forall st, rule_cemetery st = apply_rule r_cemetery st.
Proof. row_of rule_cemetery r_cemetery. Qed.

Lemma rule_facade_row : forall st, rule_facade st = apply_rule r_facade st.
Proof. row_of rule_facade r_facade. Qed.

Lemma rule_far_infra_row :
  forall st, rule_far_infra st = apply_rule r_far_infra st.
Proof. row_of rule_far_infra r_far_infra. Qed.

(** The slope rule is the two rows [r_steep] and [r_flat]: a slope figure
    of 8 or more is not 0.3 or less, so the [elif] needs no guard. *)
Lemma rule_slope_rows :
  forall st, rule_slope st = apply_rule r_flat (apply_rule r_steep st).
Proof.
  intros [m rs cs].
  unfold rule_slope, apply_rule, rule_risks, rule_checks.
  cbn [fires risk_of check_of check_always r_steep r_flat orb
       st_m st_risks st_checks].
  fold (slope_of m).
  destruct (8.0 <=? slope_of m) eqn:E8; destruct (slope_of m <=? 0.3) eqn:E3;
    cbn [st_m st_risks st_checks]; rewrite ?app_nil_r; try reflexivity.
  order_facts. exfalso. lra.
Qed.

Lemma rule_flood_row :
  forall st,
    rule_flood st =
    mk_rstate (flood_store (st_m st))
              (st_risks st ++ rule_risks (st_m st) r_flood)
              (st_checks st ++ rule_checks (st_m st) r_flood).
Proof.
  intros [m rs cs].
  unfold rule_flood, flood_store, rule_risks, rule_checks, flood_pct_of.
  cbn [fires risk_of check_of check_always r_flood orb st_m st_risks st_checks].
  unfold flood_pct_of.
  destruct (risk_flood_pct m) as [fr|].
  - destruct (Z.leb_spec 65 fr), (Z.leb_spec 35 fr); try lia;
      cbn [st_m st_risks st_checks append_check append_risk];
      rewrite ?app_nil_r; reflexivity.
  - set (fr := flood_risk_pct _ _ _).
    destruct (Z.leb_spec 65 fr), (Z.leb_spec 35 fr); try lia;
      cbn [st_m st_risks st_checks append_check append_risk store_flood_pct];
      rewrite ?app_nil_r; reflexivity.
Qed.

(** Only the flood rule reads [risk.flood_pct]: the rows after it see the
    same dictionary whether or not the percentage has been stored. *)
Lemma rule_risks_flood_store (m : metric_set) (r : rule) :
  In r rules_after_flood ->
  rule_risks (flood_store m) r = rule_risks m r /\
  rule_checks (flood_store m) r = rule_checks m r.
Proof.
  intros Hr. unfold flood_store.
  destruct (risk_flood_pct m); [split; reflexivity |].
  unfold rules_after_flood in Hr. cbn [In] in Hr.
  repeat (destruct Hr as [<- | Hr]; [split; reflexivity |]).
  contradiction.
Qed.

Lemma apply_rules_fold (rs : list rule) :
  forall st,
    fold_left (fun st r => apply_rule r st) rs st =
    mk_rstate (st_m st)
              (st_risks st ++ flat_map (rule_risks (st_m st)) rs)
              (st_checks st ++ flat_map (rule_checks (st_m st)) rs).
Proof.
  induction rs as [| r rs IH]; intros [m risks checks]; cbn [fold_left flat_map].
  - cbn [st_m st_risks st_checks]. now rewrite !app_nil_r.
  - rewrite IH. unfold apply_rule. cbn [st_m st_risks st_checks].
    now rewrite <- !app_assoc.
Qed.

Lemma build_risks_run_fold (m : metric_set) :
  build_risks_run m =
  fold_left (fun st r => apply_rule r st) rules_after_flood
            (rule_flood (apply_rule r_access (mk_rstate m [] []))).
Proof.
  unfold build_risks_run.
  rewrite rule_access_row, rule_water_row, rule_power_row,
    rule_rail_row, rule_gas_row, rule_industrial_row, rule_landfill_row,
    rule_wastewater_row, rule_cemetery_row, rule_slope_rows, rule_facade_row,
    rule_far_infra_row.
  reflexivity.
Qed.

(** The two lists that build_risks has accumulated when it reaches the
    deduplication are the rows' contributions, in the order of the table. *)
Lemma build_risks_run_table (m : metric_set) :
  st_risks (build_risks_run m) = flat_map (rule_risks m) rule_table /\
  st_checks (build_risks_run m) = flat_map (rule_checks m) rule_table.
Proof.
  rewrite build_risks_run_fold, rule_flood_row, apply_rules_fold.
  cbn [st_m st_risks st_checks apply_rule].
  assert (Hr : flat_map (rule_risks (flood_store m)) rules_after_flood
               = flat_map (rule_risks m) rules_after_flood).
  { rewrite !flat_map_concat_map. f_equal. apply map_ext_in. intros r Hin.
    now apply rule_risks_flood_store. }
  assert (Hc : flat_map (rule_checks (flood_store m)) rules_after_flood
               = flat_map (rule_checks m) rules_after_flood).
  { rewrite !flat_map_concat_map. f_equal. apply map_ext_in. intros r Hin.
    now apply rule_risks_flood_store. }
  rewrite Hr, Hc. unfold rule_table.
  change [r_access; r_flood; r_water; r_power; r_rail; r_gas; r_industrial;
          r_landfill; r_wastewater; r_cemetery; r_steep; r_flat; r_facade;
          r_far_infra]
    with ([r_access] ++ [r_flood] ++ rules_after_flood).
  rewrite !flat_map_app. cbn [flat_map app].
  rewrite !app_nil_r, <- !app_assoc. split; reflexivity.
Qed.

(** ** Deduplication of the checklist *)

Lemma existsb_eqb_In (x : string) (l : list string) :
  existsb (String.eqb x) l = true <-> In x l.
Proof.
  rewrite existsb_exists. split.
  - intros [y [Hy E]]. apply String.eqb_eq in E. now subst.
  - intros H. exists x. split; [exact H | apply String.eqb_refl].
Qed.

Lemma dict_fromkeys_snoc (l : list string) (x : string) :
  dict_fromkeys (l ++ [x]) =
  if existsb (String.eqb x) (dict_fromkeys l)
  then dict_fromkeys l
  else dict_fromkeys l ++ [x].
Proof. unfold dict_fromkeys. now rewrite fold_left_app. Qed.

Lemma dict_fromkeys_In (l : list string) :
  forall x, In x (dict_fromkeys l) <-> In x l.
Proof.
  induction l as [| y l IH] using rev_ind; intros x; [reflexivity |].
  rewrite dict_fromkeys_snoc.
  destruct (existsb (String.eqb y) (dict_fromkeys l)) eqn:E.
  - apply existsb_eqb_In, IH in E.
    rewrite in_app_iff, IH. cbn [In].
    split; [tauto | intros [H | [<- | []]]; assumption].
  - rewrite !in_app_iff, IH. reflexivity.
Qed.

Lemma dict_fromkeys_NoDup (l : list string) : NoDup (dict_fromkeys l).
Proof.
  induction l as [| y l IH] using rev_ind; [constructor |].
  rewrite dict_fromkeys_snoc.
  destruct (existsb (String.eqb y) (dict_fromkeys l)) eqn:E; [exact IH |].
  apply NoDup_app; [exact IH | repeat constructor; intros [] |].
  intros a Ha [<- | []].
  apply existsb_eqb_In in Ha. congruence.
Qed.

Lemma combine_app_same {A B : Type} (l1 l1' : list A) (l2 l2' : list B) :
  List.length l1 = List.length l2 ->
  combine (l1 ++ l1') (l2 ++ l2') = combine l1 l2 ++ combine l1' l2'.
Proof.
  revert l2. induction l1 as [| a l1 IH]; intros [| b l2] Hlen;
    try discriminate; [reflexivity |].
  cbn [app combine]. f_equal. apply IH. now injection Hlen.
Qed.

Lemma first_occurrences_snoc (l : list string) (x : string) :
  first_occurrences (l ++ [x]) =
  first_occurrences l ++ (if existsb (String.eqb x) l then [] else [x]).
Proof.
  unfold first_occurrences.
  rewrite length_app, seq_app. cbn [List.length seq Nat.add].
  rewrite combine_app_same by apply length_seq.
  rewrite filter_app, map_app. f_equal.
  - f_equal. apply filter_ext_in. intros [i y] Hin.
    apply in_combine_l, in_seq in Hin. cbn [fst snd].
    rewrite firstn_app.
    replace (i - List.length l)%nat with 0%nat by lia.
    cbn [firstn]. now rewrite app_nil_r.
  - cbn [combine filter fst snd].
    rewrite firstn_app, Nat.sub_diag, firstn_all. cbn [firstn].
    rewrite app_nil_r.
    destruct (existsb (String.eqb x) l); reflexivity.
Qed.

(** [list(dict.fromkeys(l))] keeps the first occurrence of every string,
    at its place. *)
Lemma dict_fromkeys_first_occurrences (l : list string) :
  dict_fromkeys l = first_occurrences l.
Proof.
  induction l as [| y l IH] using rev_ind; [reflexivity |].
  rewrite dict_fromkeys_snoc, first_occurrences_snoc, <- IH.
  assert (E : existsb (String.eqb y) (dict_fromkeys l)
              = existsb (String.eqb y) l).
  { apply eq_true_iff_eq. rewrite !existsb_eqb_In. apply dict_fromkeys_In. }
  rewrite E. destruct (existsb (String.eqb y) l); [now rewrite app_nil_r | reflexivity].
Qed.

Lemma build_risks_checks (m : metric_set) :
  snd (build_risks m) = dict_fromkeys (flat_map (rule_checks m) rule_table).
Proof.
  unfold build_risks. cbn [snd].
  now rewrite (proj2 (build_risks_run_table m)).
Qed.

Lemma build_risks_risks (m : metric_set) :
  fst (build_risks m) = flat_map (rule_risks m) rule_table.
Proof.
  unfold build_risks. cbn [fst]. apply build_risks_run_table.
Qed.

Lemma rule_checks_In (m : metric_set) (r : rule) (s : string) :
  In s (rule_checks m r) ->
  s = check_of r /\ (check_always r = true \/ fires r m = true).
Proof.
  unfold rule_checks.
  destruct (check_always r || fires r m) eqn:E; [| intros []].
  intros [<- | []]. split; [reflexivity |]. now apply orb_true_iff.
Qed.

Lemma check_always_flood (r : rule) :
  In r rule_table -> check_always r = true -> r = r_flood.
Proof.
  unfold rule_table. cbn [In].
  intros H E.
  repeat (destruct H as [<- | H]; [try discriminate E; reflexivity |]).
  contradiction.
Qed.

Lemma no_rule_fires_checks (m : metric_set) :
  no_rule_fires m = true ->
  flat_map (rule_checks m) rule_table = [check_flood].
Proof.
  unfold no_rule_fires. rewrite forallb_forall. intros H.
  assert (Hf : forall r, In r rule_table -> fires r m = false).
  { intros r Hr. apply negb_true_iff. now apply H. }
  unfold rule_table in *. cbn [flat_map]. unfold rule_checks.
  rewrite !Hf by (cbn [In]; tauto).
  reflexivity.
Qed.

(** C5, as the code has it.  Every string of the checklist is the
    flood-maps check, which the flood rule appends whether or not a flood
    tier is reached, or the checklist string of a rule whose condition
    holds on the metric dictionary.  The flood-maps check is always in the
    checklist; when no rule condition holds, it is the whole checklist. *)
Theorem build_risks_checklist_conditions :
  forall m : metric_set,
    (forall s, In s (snd (build_risks m)) ->
       s = check_flood \/
       exists r, In r rule_table /\ fires r m = true /\ s = check_of r) /\
    In check_flood (snd (build_risks m)) /\
    (no_rule_fires m = true -> snd (build_risks m) = [check_flood]).
Proof.
  intros m. rewrite build_risks_checks. split; [| split].
  - intros s Hs. apply dict_fromkeys_In, in_flat_map in Hs.
    destruct Hs as [r [Hr Hs]].
    apply rule_checks_In in Hs. destruct Hs as [-> [Ha | Hf]].
    + left. now rewrite (check_always_flood r Hr Ha).
    + right. exists r. auto.
  - apply dict_fromkeys_In, in_flat_map. exists r_flood.
    split; [unfold rule_table; cbn [In]; tauto | now left].
  - intros H. rewrite no_rule_fires_checks by exact H. reflexivity.
Qed.

Lemma build_risks_checklist_conditions_witness :
  no_rule_fires quiet_parcel = true /\
  snd (build_risks quiet_parcel) = [check_flood].
Proof.
  assert (H : no_rule_fires quiet_parcel = true) by (vm_compute; reflexivity).
  split; [exact H |].
  exact (proj2 (proj2 (build_risks_checklist_conditions quiet_parcel)) H).
Defined.

(** C5 as stated fails: on a parcel on which no rule condition holds the
    checklist is not empty. *)
Lemma build_risks_checklist_never_empty :
  no_rule_fires quiet_parcel = true /\ snd (build_risks quiet_parcel) <> [].
Proof.
  split; [vm_compute; reflexivity |].
  vm_compute. discriminate.
Qed.

(** C9.  The checklist that build_risks returns has no duplicate string
    and consists of the first occurrences, each at its place, of the
    checklist strings that the rules appended; every appended string is
    still present.  The risk list is the rules' risk strings in the order
    in which the rules are evaluated. *)
Theorem build_risks_dedup_and_order :
  forall m : metric_set,
    NoDup (snd (build_risks m)) /\
    snd (build_risks m) = first_occurrences (st_checks (build_risks_run m)) /\
    (forall s, In s (st_checks (build_risks_run m)) <-> In s (snd (build_risks m))) /\
    st_checks (build_risks_run m) = flat_map (rule_checks m) rule_table /\
    fst (build_risks m) = flat_map (rule_risks m) rule_table.
Proof.
  intros m.
  split; [apply dict_fromkeys_NoDup |].
  split; [apply dict_fromkeys_first_occurrences |].
  split; [intros s; symmetry; apply dict_fromkeys_In |].
  split; [apply build_risks_run_table | apply build_risks_risks].
Qed.

(** ** Elevation statistics *)

Lemma filter_all_null (elev : list (option Q)) :
  Forall (fun e => e = None) elev -> filter is_not_none elev = [].
Proof.
  induction 1 as [| e elev He _ IH]; [reflexivity |].
  subst e. exact IH.
Qed.

Lemma stats_of_lookup_all_null (np : numpy) (pts_inside : list bool)
      (elev : list (option Q)) :
  Forall (fun e => e = None) elev ->
  stats_of_lookup np pts_inside elev = Ok zero_stats.
Proof.
  intros H. unfold stats_of_lookup, elev_populations.
  now rewrite (filter_all_null elev H).
Qed.

Lemma grid_counts_500_ok (w h step_m : Q) :
  ~ step_m == 0 -> exists nx ny, grid_counts w h step_m 500 = Ok (nx, ny).
Proof.
  intros Hstep. unfold grid_counts.
  destruct (Qeq_bool step_m 0) eqn:E.
  - apply Qeq_bool_iff in E. contradiction.
  - cbn [Z.eqb Z.ltb Z.compare].
    destruct (500 <? _)%Z; eexists; eexists; reflexivity.
Qed.

Lemma sample_points_ok (geom : parcel) (step_m buffer_m : Q) :
  ~ step_m == 0 ->
  exists pts_inside latlons,
    sample_points geom step_m buffer_m = Ok (pts_inside, latlons).
Proof.
  intros Hstep. unfold sample_points, _expand_grid.
  destruct (buffer_bounds geom buffer_m) as [[[minx miny] maxx] maxy].
  destruct (grid_counts_500_ok (maxx - minx) (maxy - miny) step_m Hstep)
    as [nx [ny E]].
  rewrite E. cbn [bind].
  destruct (filter _ _); eexists; eexists; reflexivity.
Qed.

(** C8.  When the elevation lookup returns only null values for the
    sample points of a parcel, compute_dem_stats raises nothing and
    returns the statistics in which min, max, median, 95th percentile,
    slope-indicative value and relative lowness are all 0. *)
Theorem compute_dem_stats_all_null :
  forall (np : numpy) (_get_elevations : list point -> list (option Q))
         (geom : parcel) (step_m buffer_m : Q),
    ~ step_m == 0 ->
    (forall pts_inside latlons,
        sample_points geom step_m buffer_m = Ok (pts_inside, latlons) ->
        Forall (fun e => e = None) (_get_elevations latlons)) ->
    compute_dem_stats np _get_elevations geom step_m buffer_m = Ok zero_stats.
Proof.
  intros np lookup geom step_m buffer_m Hstep Hnull.
  destruct (sample_points_ok geom step_m buffer_m Hstep) as [pi [ll E]].
  unfold compute_dem_stats. rewrite E. cbn [bind].
  apply stats_of_lookup_all_null. exact (Hnull pi ll E).
Qed.

Lemma lookup_all_null_Forall (latlons : list point) :
  Forall (fun e : option Q => e = None) (lookup_all_null latlons).
Proof.
  unfold lookup_all_null. induction latlons; constructor; auto.
Qed.

Lemma compute_dem_stats_all_null_witness :
  compute_dem_stats numpy_q lookup_all_null square_parcel 60 200 = Ok zero_stats.
Proof.
  apply (compute_dem_stats_all_null numpy_q lookup_all_null square_parcel 60 200).
  - intros H. discriminate H.
  - intros pts_inside latlons _. apply lookup_all_null_Forall.
Defined.

(** *** The two populations *)

Lemma filter_not_none_compact (elev : list (option Q)) :
  filter is_not_none elev = map Some (spec_all_population elev).
Proof.
  induction elev as [| [h|] elev IH]; cbn [filter is_not_none spec_all_population map];
    [reflexivity | now rewrite IH | exact IH].
Qed.

Lemma spec_all_population_map_Some (vs : list Q) :
  spec_all_population (map Some vs) = vs.
Proof.
  induction vs as [| v vs IH]; [reflexivity |].
  cbn [map spec_all_population]. now rewrite IH.
Qed.

Lemma skipn_nth_error_Some {A : Type} (l : list A) (j : nat) (a : A) :
  nth_error l j = Some a -> skipn j l = a :: skipn (S j) l.
Proof.
  revert j. induction l as [| b l IH]; intros [| j] H; try discriminate.
  - now injection H as ->.
  - cbn [nth_error] in H. cbn [skipn]. now apply IH.
Qed.

Lemma skipn_nth_error_None {A : Type} (l : list A) (j : nat) :
  nth_error l j = None -> skipn j l = [].
Proof.
  intros H. apply skipn_all2. now apply nth_error_None.
Qed.

(** On a list without nulls the loop pairs the flags with the elevations
    from position [j] on, one for one. *)
Lemma partition_loop_no_null (pts_inside : list bool) (vs : list Q) :
  forall (j : nat) (elev_in elev_all : list Q),
    partition_loop pts_inside (map Some vs) j elev_in elev_all =
    (elev_in ++ spec_inside_population pts_inside (map Some (skipn j vs)),
     elev_all ++ firstn (List.length pts_inside) (skipn j vs)).
Proof.
  induction pts_inside as [| inside flags IH]; intros j elev_in elev_all.
  - cbn. now rewrite !app_nil_r.
  - cbn [partition_loop List.length]. rewrite nth_error_map.
    destruct (nth_error vs j) as [h|] eqn:E; cbn [option_map].
    + rewrite IH, (skipn_nth_error_Some vs j h E).
      cbn [map spec_inside_population firstn].
      destruct inside; now rewrite <- !app_assoc.
    + rewrite (skipn_nth_error_None vs j E). cbn.
      now rewrite !app_nil_r.
Qed.

(** What the code computes: the nulls are dropped first, and the flags
    are then paired with the elevations that remain. *)
Lemma elev_populations_compacted (pts_inside : list bool) (elev : list (option Q)) :
  elev_populations pts_inside elev =
  match spec_all_population elev with
  | [] => None
  | vs =>
      let inside := spec_inside_population pts_inside (map Some vs) in
      let all := firstn (List.length pts_inside) vs in
      Some (match inside with [] => all | _ => inside end, all)
  end.
Proof.
  unfold elev_populations. rewrite filter_not_none_compact.
  destruct (spec_all_population elev) as [| v vs]; [reflexivity |].
  cbn [map].
  change (Some v :: map Some vs) with (map Some (v :: vs)).
  rewrite partition_loop_no_null. cbn [skipn app]. reflexivity.
Qed.

(** Without a null in the lookup result, and with one result per sample
    point, the code computes the populations of the specification. *)
Lemma elev_populations_no_null (pts_inside : list bool) (vs : list Q) :
  List.length pts_inside = List.length vs -> vs <> [] ->
  elev_populations pts_inside (map Some vs)
  = Some (spec_populations pts_inside (map Some vs)).
Proof.
  intros Hlen Hne. rewrite elev_populations_compacted.
  unfold spec_populations. rewrite spec_all_population_map_Some.
  destruct vs as [| v vs]; [contradiction |].
  rewrite Hlen, firstn_all. reflexivity.
Qed.

(** C3, at an input where the code departs from it.  Three sample points,
    only the second inside the parcel; the lookup fails for the first and
    returns 10 and 20 for the others.  The elevation 10 was sampled at the
    inside point, yet the inside population that the code builds is [20]:
    after the nulls are dropped, the flags are read at the positions of
    the shortened list. *)
Theorem elev_populations_misaligned :
  elev_populations [false; true; false] [None; Some 10; Some 20]
    = Some ([20], [10; 20]) /\
  spec_populations [false; true; false] [None; Some 10; Some 20]
    = ([10], [10; 20]).
Proof. split; reflexivity. Qed.

(** *** The sampler does not raise *)

Lemma sample_points_nonempty (geom : parcel) (step_m buffer_m : Q)
      (pts_inside : list bool) (latlons : list point) :
  sample_points geom step_m buffer_m = Ok (pts_inside, latlons) ->
  pts_inside <> [].
Proof.
  unfold sample_points.
  destruct (_expand_grid _ _ _) as [[xs ys] | e]; cbn [bind]; [| discriminate].
  destruct (filter _ _) as [| p pts]; intros H; injection H as <- _;
    discriminate.
Qed.

Lemma stats_of_lookup_ok (np : numpy) (pts_inside : list bool)
      (elev : list (option Q)) :
  pts_inside <> [] -> exists d, stats_of_lookup np pts_inside elev = Ok d.
Proof.
  intros Hne. unfold stats_of_lookup.
  rewrite elev_populations_compacted.
  destruct (spec_all_population elev) as [| v vs]; [eexists; reflexivity |].
  destruct pts_inside as [| inside flags]; [contradiction |].
  cbv zeta. cbn [List.length firstn].
  destruct (spec_inside_population _ _); eexists; reflexivity.
Qed.

(** Whatever the lookup returns, compute_dem_stats with a non-zero grid
    spacing returns statistics. *)
Lemma compute_dem_stats_never_raises
      (np : numpy) (_get_elevations : list point -> list (option Q))
      (geom : parcel) (step_m buffer_m : Q) :
  ~ step_m == 0 ->
  exists d, compute_dem_stats np _get_elevations geom step_m buffer_m = Ok d.
Proof.
  intros Hstep.
  destruct (sample_points_ok geom step_m buffer_m Hstep) as [pi [ll E]].
  unfold compute_dem_stats. rewrite E. cbn [bind].
  apply stats_of_lookup_ok. exact (sample_points_nonempty _ _ _ _ _ E).
Qed.

(** ** The sampling grid *)

Lemma length_linspace (start stop : Q) (num : Z) :
  List.length (linspace start stop num) = Z.to_nat num.
Proof. unfold linspace. now rewrite length_map, length_seq. Qed.





(** *** The scaled count over the reals *)

Module RealReading.

Import Reals Lra.
Local Open Scope R_scope.


End RealReading.





(** * Further properties *)

Import MetricsText.

(** ** The distance normaliser and the sub-scores *)





(** X2.  A distance that is null or 0.0 is scored like the bad distance:
    the access and power sub-scores are 0, and so is the infrastructure
    sub-score when both of its distances are null or 0.0.  The value 30
    that the normaliser has for a null argument is never produced. *)
Theorem falsy_distance_scores_zero :
  forall d d' : option Q,
    py_truthy d = false -> py_truthy d' = false ->
    score_access d == 0 /\ score_power d == 0 /\ score_infra d d' == 0 /\
    forall (d0 : option Q) (c : Q), py_or d0 (Some c) <> None.
Proof.
  intros d d' H H'. unfold score_access, score_power, score_infra, py_or.
  rewrite H, H'. repeat split; try reflexivity.
  intros [x|] c; cbn; [destruct (negb (Qeq_bool x 0)) |]; discriminate.
Qed.

Lemma falsy_distance_scores_zero_witness :
  score_access (Some 0) == 0 /\ score_power None == 0 /\
  score_infra (Some 0) None == 0.
Proof.
  pose proof (falsy_distance_scores_zero (Some 0) None eq_refl eq_refl)
    as [Ha [Hp [Hi _]]].
  split; [exact Ha | split; [reflexivity | exact Hi]].
Defined.




(** ** The composite score *)








(** X5.  In the record that compute_all returns every sub-score lies
    between 0 and 100 and the composite between 4 and 100; the flood
    sub-score and the stored flood percentage add up to 100, the
    percentage being the flood heuristic on the water distance, the
    relative lowness (0 if absent) and the slope figure (5 if absent). *)
Theorem compute_all_scores_in_range :
  forall (g : geo_inputs) (ds : dem_stats),
    let r := compute_all g ds in
    let sc := res_score r in
    0 <= access sc <= 100 /\ 0 <= flood sc <= 100 /\ 0 <= slope sc <= 100 /\
    0 <= infra sc <= 100 /\ 0 <= power sc <= 100 /\
    (4 <= total sc <= 100)%Z /\
    exists fp : Z,
      risk_flood_pct (res_metrics r) = Some fp /\
      fp = flood_risk_pct (md_waters g)
             (Some (match rel_lowness_m ds with Some v => v | None => 0.0 end))
             (Some (match slope_indicative_pct ds with Some v => v | None => 5.0 end)) /\
      flood sc = inject_Z (100 - fp).
Proof.
  intros g ds. cbv zeta. unfold compute_all.
  destruct (build_risks _) as [risks checks].
  cbn [res_score res_metrics access flood slope infra power total risk_flood_pct].
  set (slope_pct := match slope_indicative_pct ds with Some s => s | None => 5.0 end).
  set (fp := flood_risk_pct _ _ _).
  set (adjacent := match roads_buf_inter_len g with Some l => 0.5 <? l | None => false end).
  pose proof (flood_risk_pct_range (md_waters g)
                (Some (match rel_lowness_m ds with Some v => v | None => 0.0 end))
                (Some slope_pct)) as Hfp.
  fold fp in Hfp.
  pose proof (score_access_range (py_or (md_roads_major g) (md_roads_all g))) as Ra.
  pose proof (score_slope_range slope_pct) as Rs.
  pose proof (score_flood_range fp (proj1 Hfp)) as Rf.
  pose proof (score_infra_range (md_stops g) (md_places g)) as Ri.
  pose proof (score_power_range (md_powers g)) as Rp.
  repeat (split; [assumption || (split; tauto) |]).
  split.
  - unfold score_total. apply (py_round_between 4 100).
    + change (inject_Z 4) with 4. destruct adjacent; lra.
    + change (inject_Z 100) with 100. destruct adjacent; lra.
  - exists fp. split; [reflexivity | split; [reflexivity |]].
    unfold score_flood. now rewrite Z.max_r by lia.
Qed.

(** ** The terms of the flood heuristic *)

Import FloodParts.

Lemma flood_risk_pct_sum (d v s : option Q) :
  flood_risk_pct d v s = (water_points d + lowness_points v + flat_points s)%Z.
Proof.
  unfold flood_risk_pct, water_points, lowness_points, flat_points.
  destruct d as [x|], v as [y|], s as [z|]; repeat split_if; reflexivity.
Qed.

Lemma water_points_spec (d : option Q) :
  (0 <= water_points d <= 60)%Z /\
  (water_points d = 60%Z <-> exists x, d = Some x /\ x < 10) /\
  (water_points d = 0%Z <-> forall x, d = Some x -> 300 <= x).
Proof.
  unfold water_points. destruct d as [x|].
  - repeat split_if; order_facts; (split; [lia |]); split; split;
      try (intros H; discriminate H);
      try (intros [x' [Eq Hx]]; injection Eq as <-; exfalso; lra);
      try (intros _; exists x; split; [reflexivity | assumption]);
      try (intros H; specialize (H x eq_refl); exfalso; lra);
      try (intros _ x' Eq; injection Eq as <-; assumption);
      try (intros; reflexivity).
  - split; [lia |]. split; split; try discriminate.
    + intros [x [Eq _]]. discriminate Eq.
    + reflexivity.
Qed.

Lemma lowness_points_spec (v : option Q) :
  (0 <= lowness_points v <= 35)%Z /\
  (lowness_points v = 35%Z <-> exists y, v = Some y /\ y <= -2.0) /\
  (lowness_points v = 0%Z <-> forall y, v = Some y -> -0.5 < y).
Proof.
  unfold lowness_points. destruct v as [y|].
  - repeat split_if; order_facts; (split; [lia |]); split; split;
      try (intros H; discriminate H);
      try (intros [y' [Eq Hy]]; injection Eq as <-; exfalso; lra);
      try (intros _; exists y; split; [reflexivity | assumption]);
      try (intros H; specialize (H y eq_refl); exfalso; lra);
      try (intros _ y' Eq; injection Eq as <-; assumption);
      try (intros; reflexivity).
  - split; [lia |]. split; split; try discriminate.
    + intros [y [Eq _]]. discriminate Eq.
    + reflexivity.
Qed.

Lemma flat_points_spec (s : option Q) :
  (0 <= flat_points s <= 5)%Z /\
  (flat_points s = 5%Z <-> exists z, s = Some z /\ z <= 0.5) /\
  (flat_points s = 0%Z <-> forall z, s = Some z -> 0.5 < z).
Proof.
  unfold flat_points. destruct s as [z|].
  - repeat split_if; order_facts; (split; [lia |]); split; split;
      try (intros H; discriminate H);
      try (intros [z' [Eq Hz]]; injection Eq as <-; exfalso; lra);
      try (intros _; exists z; split; [reflexivity | assumption]);
      try (intros H; specialize (H z eq_refl); exfalso; lra);
      try (intros _ z' Eq; injection Eq as <-; assumption);
      try (intros; reflexivity).
  - split; [lia |]. split; split; try discriminate.
    + intros [z [Eq _]]. discriminate Eq.
    + reflexivity.
Qed.

(** X6.  The flood percentage is the plain sum of the points for water
    distance, relative lowness and flat terrain: the cap at 100 never cuts
    anything.  It is 100 exactly when water is closer than 10 m, the
    lowness is -2 m or less and the slope figure is 0.5 or less, and 0
    exactly when water is absent or at 300 m or more, the lowness is
    absent or above -0.5 m and the slope figure is absent or above 0.5. *)
Theorem flood_risk_pct_extremes :
  forall d v s : option Q,
    flood_risk_pct d v s = (water_points d + lowness_points v + flat_points s)%Z /\
    (flood_risk_pct d v s = 100%Z <->
       (exists x, d = Some x /\ x < 10) /\
       (exists y, v = Some y /\ y <= -2.0) /\
       (exists z, s = Some z /\ z <= 0.5)) /\
    (flood_risk_pct d v s = 0%Z <->
       (forall x, d = Some x -> 300 <= x) /\
       (forall y, v = Some y -> -0.5 < y) /\
       (forall z, s = Some z -> 0.5 < z)).
Proof.
  intros d v s. rewrite flood_risk_pct_sum.
  destruct (water_points_spec d) as [Rw [Mw Zw]].
  destruct (lowness_points_spec v) as [Rl [Ml Zl]].
  destruct (flat_points_spec s) as [Rf [Mf Zf]].
  split; [reflexivity |].
  rewrite <- Mw, <- Ml, <- Mf, <- Zw, <- Zl, <- Zf. lia.
Qed.

(** ** More on the rule list of build_risks *)

Lemma NoDup_map_inj {A B : Type} (f : A -> B) (l : list A) :
  NoDup (map f l) -> forall x y, In x l -> In y l -> f x = f y -> x = y.
Proof.
  induction l as [| a l IH]; intros Hnd x y Hx Hy E; [contradiction |].
  cbn [map] in Hnd. inversion Hnd as [| ? ? Hnotin Hnd']; subst.
  destruct Hx as [-> | Hx], Hy as [-> | Hy].
  - reflexivity.
  - exfalso. apply Hnotin. rewrite E. now apply in_map.
  - exfalso. apply Hnotin. rewrite <- E. now apply in_map.
  - now apply IH.
Qed.

Lemma NoDup_map_filter {A B : Type} (key : A -> B) (keep : A -> bool)
      (rows : list A) (Hnd : NoDup (map key rows)) :
  NoDup (map key (filter keep rows)).
Proof.
  revert Hnd. induction rows as [| a l IH]; intros Hnd; [constructor |].
  cbn [map] in Hnd. inversion Hnd as [| ? ? Hnotin Hnd']; subst.
  cbn [filter]. destruct (keep a); [| now apply IH].
  cbn [map]. constructor; [| now apply IH].
  intros Hin. apply Hnotin. apply in_map_iff in Hin.
  destruct Hin as [x [E Hx]]. apply filter_In in Hx.
  rewrite <- E. apply in_map. tauto.
Qed.

Lemma In_map_filter_iff {A B : Type} (f : A -> B) (p : A -> bool)
      (l : list A) (x : A) :
  NoDup (map f l) -> In x l ->
  (In (f x) (map f (filter p l)) <-> p x = true).
Proof.
  intros Hnd Hx. split.
  - intros Hin. apply in_map_iff in Hin. destruct Hin as [y [E Hy]].
    apply filter_In in Hy. destruct Hy as [Hy Hp].
    now rewrite <- (NoDup_map_inj f l Hnd y x Hy Hx E).
  - intros Hp. apply in_map, filter_In. tauto.
Qed.

Lemma flat_map_rule_risks (m : metric_set) (l : list rule) :
  flat_map (rule_risks m) l
  = map (fun r => risk_of r m) (filter (fun r => fires r m) l).
Proof.
  induction l as [| r l IH]; [reflexivity |].
  cbn [flat_map filter]. unfold rule_risks at 1.
  destruct (fires r m); cbn [app map]; now rewrite IH.
Qed.

Lemma flat_map_rule_checks (m : metric_set) (l : list rule) :
  flat_map (rule_checks m) l
  = map check_of (filter (fun r => check_always r || fires r m) l).
Proof.
  induction l as [| r l IH]; [reflexivity |].
  cbn [flat_map filter]. unfold rule_checks at 1.
  destruct (check_always r || fires r m); cbn [app map]; now rewrite IH.
Qed.

Lemma dict_fromkeys_NoDup_id (l : list string) :
  NoDup l -> dict_fromkeys l = l.
Proof.
  induction l as [| x l IH] using rev_ind; intros Hnd; [reflexivity |].
  rewrite dict_fromkeys_snoc.
  assert (Hl : NoDup l) by (apply NoDup_app_remove_r in Hnd; exact Hnd).
  rewrite (IH Hl).
  destruct (existsb (String.eqb x) l) eqn:E; [| reflexivity].
  exfalso. apply existsb_eqb_In in E.
  apply NoDup_remove_2 in Hnd. rewrite app_nil_r in Hnd. contradiction.
Qed.

(** The checklist strings of the table and the five base checks of the
    report are pairwise different. *)
Lemma check_strings_NoDup : NoDup (map check_of rule_table ++ Pdf.base_checks).
Proof.
  assert (E : nodup string_dec (map check_of rule_table ++ Pdf.base_checks)
              = map check_of rule_table ++ Pdf.base_checks)
    by (vm_compute; reflexivity).
  rewrite <- E. apply NoDup_nodup.
Qed.

(** The risk strings of the table are pairwise different, whatever the
    flood percentage printed in the flood risk. *)
Lemma risk_strings_NoDup (m : metric_set) :
  NoDup (map (fun r => risk_of r m) rule_table).
Proof.
  unfold rule_table. cbn [map risk_of r_access r_flood r_water r_power r_rail
    r_gas r_industrial r_landfill r_wastewater r_cemetery r_steep r_flat
    r_facade r_far_infra].
  generalize (flood_pct_of m). intros fr.
  assert (Hconst : NoDup [risk_no_road; risk_water; risk_power; risk_rail;
                          risk_gas; risk_industrial; risk_landfill;
                          risk_wastewater; risk_cemetery; risk_steep; risk_flat;
                          risk_facade; risk_far_infra]).
  { match goal with |- NoDup ?l =>
      assert (E : nodup string_dec l = l) by (vm_compute; reflexivity);
      rewrite <- E; apply NoDup_nodup end. }
  inversion Hconst as [| ? ? Hnot Hrest]; subst.
  constructor.
  - cbn [In]. intros [E | H]; [| now apply Hnot].
    destruct (65 <=? fr)%Z; discriminate E.
  - constructor; [| exact Hrest].
    cbn [In]. destruct (65 <=? fr)%Z; intuition discriminate.
Qed.

Lemma rule_checks_NoDup (m : metric_set) :
  NoDup (flat_map (rule_checks m) rule_table).
Proof.
  rewrite flat_map_rule_checks. apply NoDup_map_filter.
  exact (NoDup_app_remove_r _ _ check_strings_NoDup).
Qed.

Lemma rule_risks_NoDup (m : metric_set) :
  NoDup (flat_map (rule_risks m) rule_table).
Proof.
  rewrite flat_map_rule_risks.
  apply (NoDup_map_filter (fun r => risk_of r m)), risk_strings_NoDup.
Qed.

Lemma build_risks_checks_raw (m : metric_set) :
  snd (build_risks m) = flat_map (rule_checks m) rule_table.
Proof.
  rewrite build_risks_checks. apply dict_fromkeys_NoDup_id, rule_checks_NoDup.
Qed.

Lemma rule_risks_length (m : metric_set) (r : rule) :
  List.length (rule_risks m r) = Nat.b2n (fires r m).
Proof. unfold rule_risks. now destruct (fires r m). Qed.

Lemma rule_checks_length (m : metric_set) (r : rule) :
  List.length (rule_checks m r) = Nat.b2n (check_always r || fires r m).
Proof. unfold rule_checks. now destruct (check_always r || fires r m). Qed.

(** The access rule and the facade rule never fire together, nor do the
    two branches of the slope rule. *)
Lemma fires_exclusive (m : metric_set) :
  fires r_access m && fires r_facade m = false /\
  fires r_steep m && fires r_flat m = false.
Proof.
  cbn [fires r_access r_facade r_steep r_flat]. split.
  - destruct (touches m); reflexivity.
  - destruct (8.0 <=? slope_of m) eqn:E8; destruct (slope_of m <=? 0.3) eqn:E3;
      try reflexivity.
    order_facts. exfalso. lra.
Qed.

(** X7.  In build_risks the deduplication never removes anything: the
    checklist strings of the rules are pairwise different, so the
    checklist is the list the rules appended, and the risks have no
    duplicate either.  The checklist has as many entries as the risk list
    when a flood tier is reached and one more otherwise; there are at
    most 12 risks and between 1 and 12 checklist entries. *)
Theorem build_risks_nothing_to_deduplicate :
  forall m : metric_set,
    snd (build_risks m) = st_checks (build_risks_run m) /\
    NoDup (fst (build_risks m)) /\
    List.length (snd (build_risks m))
      = (List.length (fst (build_risks m))
         + (if (35 <=? flood_pct_of m)%Z then 0 else 1))%nat /\
    (List.length (fst (build_risks m)) <= 12)%nat /\
    (1 <= List.length (snd (build_risks m)) <= 12)%nat.
Proof.
  intros m.
  rewrite build_risks_checks_raw, build_risks_risks.
  split; [symmetry; apply build_risks_run_table |].
  split; [apply rule_risks_NoDup |].
  destruct (fires_exclusive m) as [Xa Xs].
  unfold rule_table. cbn [flat_map].
  rewrite !length_app, !rule_risks_length, !rule_checks_length.
  cbn [check_always r_access r_flood r_water r_power r_rail r_gas r_industrial
       r_landfill r_wastewater r_cemetery r_steep r_flat r_facade r_far_infra
       orb List.length Nat.b2n].
  change (35 <=? flood_pct_of m)%Z with (fires r_flood m).
  destruct (fires r_access m), (fires r_facade m); try discriminate Xa;
    destruct (fires r_steep m), (fires r_flat m); try discriminate Xs;
    destruct (fires r_flood m); cbn [Nat.b2n];
    repeat match goal with
      | |- context [Nat.b2n ?b] =>
          let n := fresh "n" in
          let H := fresh "H" in
          assert (H : (Nat.b2n b <= 1)%nat) by (destruct b; cbn; lia);
          set (n := Nat.b2n b) in *; clearbody n
      end; lia.
Qed.

Lemma risk_in_iff_fires (m : metric_set) (r : rule) :
  In r rule_table ->
  (In (risk_of r m) (fst (build_risks m)) <-> fires r m = true).
Proof.
  intros Hr. rewrite build_risks_risks, flat_map_rule_risks.
  apply (In_map_filter_iff (fun r => risk_of r m)); [apply risk_strings_NoDup | exact Hr].
Qed.

Lemma check_in_iff_fires (m : metric_set) (r : rule) :
  In r rule_table ->
  (In (check_of r) (snd (build_risks m)) <->
   check_always r || fires r m = true).
Proof.
  intros Hr. rewrite build_risks_checks_raw, flat_map_rule_checks.
  apply (In_map_filter_iff check_of); [| exact Hr].
  exact (NoDup_app_remove_r _ _ check_strings_NoDup).
Qed.

(** X8.  For every rule of the table, its risk string is in the risk
    list exactly when its condition holds, and its checklist string is in
    the checklist exactly when its condition holds or the rule is the
    flood rule. *)
Theorem build_risks_rule_iff_condition :
  forall (m : metric_set) (r : rule),
    In r rule_table ->
    (In (risk_of r m) (fst (build_risks m)) <-> fires r m = true) /\
    (In (check_of r) (snd (build_risks m)) <->
     (r = r_flood \/ fires r m = true)).
Proof.
  intros m r Hr. split; [now apply risk_in_iff_fires |].
  rewrite (check_in_iff_fires m r Hr), orb_true_iff.
  split; intros [H | H]; auto.
  - left. now apply check_always_flood.
  - left. now subst r.
Qed.

Lemma build_risks_rule_iff_condition_witness :
  In risk_water (fst (build_risks wet_parcel)) /\
  ~ In risk_rail (fst (build_risks wet_parcel)).
Proof.
  assert (Hw : In r_water rule_table) by (unfold rule_table; cbn [In]; tauto).
  assert (Hr : In r_rail rule_table) by (unfold rule_table; cbn [In]; tauto).
  split.
  - exact (proj2 (proj1 (build_risks_rule_iff_condition wet_parcel r_water Hw))
                 eq_refl).
  - intros H.
    pose proof (proj1 (proj1 (build_risks_rule_iff_condition wet_parcel r_rail Hr))
                      H) as H'.
    discriminate H'.
Defined.

(** X9.  The risk list never holds both the no-road-access risk and the
    narrow-facade risk, and never both the steep-slope and the flat-slope
    risk. *)
Theorem build_risks_exclusive_risks :
  forall m : metric_set,
    ~ (In risk_no_road (fst (build_risks m)) /\
       In risk_facade (fst (build_risks m))) /\
    ~ (In risk_steep (fst (build_risks m)) /\
       In risk_flat (fst (build_risks m))).
Proof.
  intros m. destruct (fires_exclusive m) as [Xa Xs].
  assert (Hin : forall r, In r [r_access; r_facade; r_steep; r_flat] ->
                          In r rule_table).
  { unfold rule_table. cbn [In]. intuition. }
  pose proof (proj1 (risk_in_iff_fires m r_access (Hin r_access ltac:(cbn; tauto)))) as Fa.
  pose proof (proj1 (risk_in_iff_fires m r_facade (Hin r_facade ltac:(cbn; tauto)))) as Ff.
  pose proof (proj1 (risk_in_iff_fires m r_steep (Hin r_steep ltac:(cbn; tauto)))) as Fs.
  pose proof (proj1 (risk_in_iff_fires m r_flat (Hin r_flat ltac:(cbn; tauto)))) as Fl.
  split; intros [H1 H2].
  - rewrite (Fa H1), (Ff H2) in Xa. discriminate Xa.
  - rewrite (Fs H1), (Fl H2) in Xs. discriminate Xs.
Qed.

Lemma risks_inv (m : metric_set) (s : string) :
  In s (fst (build_risks m)) ->
  exists r, In r rule_table /\ fires r m = true /\ s = risk_of r m.
Proof.
  rewrite build_risks_risks, flat_map_rule_risks, in_map_iff.
  intros [r [E Hr]]. apply filter_In in Hr. exists r. intuition.
Qed.

Lemma risk_level_label_high (fr : Z) :
  _risk_level_label fr = label_high <-> (65 <= fr)%Z.
Proof.
  unfold _risk_level_label.
  destruct (Z.ltb_spec fr 35); [split; [discriminate | lia] |].
  destruct (Z.ltb_spec fr 65); [split; [discriminate | lia] |].
  split; [lia | reflexivity].
Qed.

Lemma risk_level_label_medium (fr : Z) :
  _risk_level_label fr = label_medium <-> (35 <= fr < 65)%Z.
Proof.
  unfold _risk_level_label.
  destruct (Z.ltb_spec fr 35); [split; [discriminate | lia] |].
  destruct (Z.ltb_spec fr 65); [split; [lia | reflexivity] |].
  split; [discriminate | lia].
Qed.

Lemma risk_level_label_low (fr : Z) :
  _risk_level_label fr = label_low <-> (fr < 35)%Z.
Proof.
  unfold _risk_level_label.
  destruct (Z.ltb_spec fr 35); [split; [lia | reflexivity] |].
  destruct (Z.ltb_spec fr 65); split; try discriminate; lia.
Qed.

(** A flood risk string is the risk of no row other than the flood row. *)
Lemma flood_risk_string_row (m : metric_set) (r : rule) (fr : Z) :
  In r rule_table ->
  risk_flood_high fr = risk_of r m \/ risk_flood_medium fr = risk_of r m ->
  r = r_flood.
Proof.
  unfold rule_table. cbn [In]. intros Hr Hs.
  repeat (destruct Hr as [<- | Hr];
          [first [reflexivity
                 | exfalso; cbn [risk_of r_access r_water r_power r_rail r_gas
                     r_industrial r_landfill r_wastewater r_cemetery r_steep
                     r_flat r_facade r_far_infra] in Hs;
                   destruct Hs as [Hs | Hs]; discriminate Hs] |]).
  contradiction.
Qed.

(** X10.  The flood risk that build_risks reports agrees with
    [_risk_level_label]: the high-risk string (quoting the percentage) is
    in the risk list exactly when the percentage is labelled high, the
    medium-risk string exactly when it is labelled medium, and no flood
    risk string at all is present when it is labelled low. *)
Theorem build_risks_flood_risk_matches_label :
  forall m : metric_set,
    let fr := flood_pct_of m in
    (In (risk_flood_high fr) (fst (build_risks m))
       <-> _risk_level_label fr = label_high) /\
    (In (risk_flood_medium fr) (fst (build_risks m))
       <-> _risk_level_label fr = label_medium) /\
    (_risk_level_label fr = label_low ->
     forall p, ~ In (risk_flood_high p) (fst (build_risks m)) /\
               ~ In (risk_flood_medium p) (fst (build_risks m))).
Proof.
  intros m fr.
  assert (Hfl : In r_flood rule_table) by (unfold rule_table; cbn [In]; tauto).
  pose proof (risk_in_iff_fires m r_flood Hfl) as Hiff.
  cbn [risk_of fires r_flood] in Hiff. fold fr in Hiff.
  assert (Hflood : forall s p,
             s = risk_flood_high p \/ s = risk_flood_medium p ->
             In s (fst (build_risks m)) ->
             (35 <= fr)%Z /\ s = risk_of r_flood m).
  { intros s p Hs Hin.
    destruct (risks_inv m s Hin) as [r [Hr [Hf E]]].
    assert (Hrow : r = r_flood).
    { apply (flood_risk_string_row m r p Hr).
      destruct Hs as [-> | ->]; [left | right]; exact E. }
    subst r. cbn [fires r_flood] in Hf. fold fr in Hf.
    split; [apply Z.leb_le; exact Hf | exact E]. }
  rewrite risk_level_label_high, risk_level_label_medium, risk_level_label_low.
  assert (Hhigh : (65 <= fr)%Z -> In (risk_flood_high fr) (fst (build_risks m))).
  { intros H65. revert Hiff. destruct (Z.leb_spec 65 fr); [| lia].
    intros Hiff. apply (proj2 Hiff). apply Z.leb_le. lia. }
  assert (Hmed : (35 <= fr < 65)%Z ->
                 In (risk_flood_medium fr) (fst (build_risks m))).
  { intros H. revert Hiff. destruct (Z.leb_spec 65 fr); [lia |].
    intros Hiff. apply (proj2 Hiff). apply Z.leb_le. lia. }
  clear Hiff.
  split; [| split].
  - split; [| exact Hhigh].
    intros Hin.
    destruct (Hflood _ fr (or_introl eq_refl) Hin) as [H35 E].
    cbn [risk_of r_flood] in E. fold fr in E. revert E.
    destruct (Z.leb_spec 65 fr); intros E; [lia | discriminate E].
  - split; [| exact Hmed].
    intros Hin.
    destruct (Hflood _ fr (or_intror eq_refl) Hin) as [H35 E].
    cbn [risk_of r_flood] in E. fold fr in E. revert E.
    destruct (Z.leb_spec 65 fr); intros E; [discriminate E | lia].
  - intros Hlow p. split; intros Hin.
    + destruct (Hflood _ p (or_introl eq_refl) Hin). lia.
    + destruct (Hflood _ p (or_intror eq_refl) Hin). lia.
Qed.

Lemma flood_pct_of_store (m : metric_set) :
  flood_pct_of (flood_store m) = flood_pct_of m.
Proof.
  unfold flood_store, flood_pct_of.
  destruct (risk_flood_pct m) eqn:E; [now rewrite E | reflexivity].
Qed.

Lemma rule_rows_flood_store (m : metric_set) (r : rule) :
  In r rule_table ->
  rule_risks (flood_store m) r = rule_risks m r /\
  rule_checks (flood_store m) r = rule_checks m r.
Proof.
  unfold rule_table. cbn [In]. intros [<- | [<- | Hr]].
  - unfold flood_store. destruct (risk_flood_pct m); split; reflexivity.
  - unfold rule_risks, rule_checks. cbn [fires risk_of check_of check_always r_flood].
    rewrite flood_pct_of_store. split; reflexivity.
  - apply rule_risks_flood_store. exact Hr.
Qed.

Lemma build_risks_run_store (m : metric_set) :
  st_m (build_risks_run m) = flood_store m.
Proof.
  rewrite build_risks_run_fold, rule_flood_row, apply_rules_fold. reflexivity.
Qed.

(** X11.  build_risks leaves in the dictionary the flood percentage it
    worked with, changes nothing else in it, and a second call on the
    dictionary so updated returns the same two lists as the first. *)
Theorem build_risks_twice :
  forall m : metric_set,
    risk_flood_pct (st_m (build_risks_run m)) = Some (flood_pct_of m) /\
    st_m (build_risks_run m) = set_risk_flood_pct m (flood_pct_of m) /\
    build_risks (st_m (build_risks_run m)) = build_risks m.
Proof.
  intros m. rewrite build_risks_run_store.
  split; [| split].
  - unfold flood_store, flood_pct_of.
    destruct (risk_flood_pct m) eqn:E; [exact E | reflexivity].
  - unfold flood_store, flood_pct_of.
    destruct m as [a b c d e f g h i j k l n o p]; cbn.
    destruct p; reflexivity.
  - unfold build_risks.
    destruct (build_risks_run_table m) as [R C].
    destruct (build_risks_run_table (flood_store m)) as [R' C'].
    rewrite R, C, R', C'.
    assert (Er : flat_map (rule_risks (flood_store m)) rule_table
                 = flat_map (rule_risks m) rule_table).
    { rewrite !flat_map_concat_map. f_equal. apply map_ext_in.
      intros r Hr. apply (rule_rows_flood_store m r Hr). }
    assert (Ec : flat_map (rule_checks (flood_store m)) rule_table
                 = flat_map (rule_checks m) rule_table).
    { rewrite !flat_map_concat_map. f_equal. apply map_ext_in.
      intros r Hr. apply (rule_rows_flood_store m r Hr). }
    rewrite Er, Ec. reflexivity.
Qed.

(** ** Labels in the caption, the explanation and the report *)


(** ** The checklist of the report *)

Lemma NoDup_map_filter_app {A B : Type} (f : A -> B) (p : A -> bool)
      (l : list A) (b : list B) :
  NoDup (map f l ++ b) -> NoDup (map f (filter p l) ++ b).
Proof.
  induction l as [| a l IH]; intros Hnd; [exact Hnd |].
  cbn [map app] in Hnd. inversion Hnd as [| ? ? Hnotin Hnd']; subst.
  cbn [filter]. destruct (p a); [| now apply IH].
  cbn [map app]. constructor; [| now apply IH].
  intros Hin. apply Hnotin. apply in_app_iff in Hin. apply in_app_iff.
  destruct Hin as [Hin | Hin]; [left | right; exact Hin].
  apply in_map_iff in Hin. destruct Hin as [x [E Hx]].
  apply filter_In in Hx. rewrite <- E. apply in_map. tauto.
Qed.

Lemma checks_length_range (m : metric_set) :
  (1 <= List.length (flat_map (rule_checks m) rule_table) <= 12)%nat.
Proof.
  destruct (fires_exclusive m) as [Xa Xs].
  unfold rule_table. cbn [flat_map].
  rewrite !length_app, !rule_checks_length.
  cbn [check_always r_access r_flood r_water r_power r_rail r_gas
       r_industrial r_landfill r_wastewater r_cemetery r_steep r_flat
       r_facade r_far_infra orb List.length Nat.b2n].
  destruct (fires r_access m), (fires r_facade m); try discriminate Xa;
    destruct (fires r_steep m), (fires r_flat m); try discriminate Xs;
    cbn [Nat.b2n];
    repeat match goal with
      | |- context [Nat.b2n ?b] =>
          let n := fresh "n" in
          let H := fresh "H" in
          assert (H : (Nat.b2n b <= 1)%nat) by (destruct b; cbn; lia);
          set (n := Nat.b2n b) in *; clearbody n
      end; lia.
Qed.

(** X13.  The checklist printed in the report is the checklist of
    build_risks followed by the five base checks, in this order and
    without any removal: no base check equals a rule's checklist string.
    It has between 6 and 17 entries, and is the five base checks alone
    when the record has no checklist or an empty one. *)
Theorem full_checks_appends_base :
  forall m : metric_set,
    Pdf.full_checks (Some (snd (build_risks m)))
      = snd (build_risks m) ++ Pdf.base_checks /\
    NoDup (Pdf.full_checks (Some (snd (build_risks m)))) /\
    (6 <= List.length (Pdf.full_checks (Some (snd (build_risks m)))) <= 17)%nat /\
    Pdf.full_checks None = Pdf.base_checks /\
    Pdf.full_checks (Some []) = Pdf.base_checks.
Proof.
  intros m.
  assert (Hnd : NoDup (snd (build_risks m) ++ Pdf.base_checks)).
  { rewrite build_risks_checks_raw, flat_map_rule_checks.
    apply NoDup_map_filter_app, check_strings_NoDup. }
  assert (E : Pdf.full_checks (Some (snd (build_risks m)))
              = snd (build_risks m) ++ Pdf.base_checks).
  { unfold Pdf.full_checks.
    destruct (snd (build_risks m)) as [| c l];
      apply dict_fromkeys_NoDup_id; exact Hnd. }
  rewrite E. split; [reflexivity |]. split; [exact Hnd |].
  split.
  - rewrite length_app, build_risks_checks_raw.
    pose proof (checks_length_range m) as Hlen.
    change (List.length Pdf.base_checks) with 5%nat. lia.
  - split; apply dict_fromkeys_NoDup_id;
      exact (NoDup_app_remove_l _ _ check_strings_NoDup).
Qed.

(** ** The UTM zone *)

Import Geo.



(** ** compute_all and its rule list *)

Lemma compute_all_lists (g : geo_inputs) (ds : dem_stats) :
  risks_list (compute_all g ds)
    = fst (build_risks (res_metrics (compute_all g ds))) /\
  checks_list (compute_all g ds)
    = snd (build_risks (res_metrics (compute_all g ds))).
Proof.
  unfold compute_all.
  match goal with
  | |- context [build_risks ?t] => set (tmp := t)
  end.
  destruct (build_risks tmp) as [risks checks] eqn:E.
  cbn [risks_list checks_list res_metrics]. rewrite E. split; reflexivity.
Qed.

Lemma compute_all_metrics (g : geo_inputs) (ds : dem_stats) :
  touches (res_metrics (compute_all g ds))
    = match roads_buf_inter_len g with Some l => 0.5 <? l | None => false end /\
  facade_of (res_metrics (compute_all g ds))
    = match roads_buf_inter_len g with Some l => l | None => 0.0 end /\
  slope_of (res_metrics (compute_all g ds))
    = py_or_default (slope_indicative_pct ds) 0.0.
Proof.
  unfold compute_all.
  destruct (build_risks _) as [risks checks].
  cbn [res_metrics]. repeat split.
Qed.

Lemma In_table_access_facade :
  In r_access rule_table /\ In r_facade rule_table /\
  In r_steep rule_table /\ In r_flat rule_table.
Proof. unfold rule_table. cbn [In]. tauto. Qed.

(** X15.  In the result of compute_all the parcel counts as touching a
    road exactly when more than 0.5 m of its boundary lie in the road
    buffer.  The no-road-access risk is reported exactly when it does not
    touch (no road at all, or 0.5 m or less), and the narrow-facade risk
    exactly when the length in the buffer is above 0.5 m and below 8 m. *)
Theorem compute_all_road_adjacency :
  forall (g : geo_inputs) (ds : dem_stats),
    let r := compute_all g ds in
    (touches_road (res_metrics r) = Some true <->
       exists l, roads_buf_inter_len g = Some l /\ 0.5 < l) /\
    (In risk_no_road (risks_list r) <->
       forall l, roads_buf_inter_len g = Some l -> l <= 0.5) /\
    (In risk_facade (risks_list r) <->
       exists l, roads_buf_inter_len g = Some l /\ 0.5 < l /\ l < 8).
Proof.
  intros g ds r.
  destruct (compute_all_lists g ds) as [ER _].
  destruct (compute_all_metrics g ds) as [ET [EF _]].
  destruct In_table_access_facade as [Ha [Hf _]].
  pose proof (risk_in_iff_fires (res_metrics (compute_all g ds)) r_access Ha) as Ia.
  pose proof (risk_in_iff_fires (res_metrics (compute_all g ds)) r_facade Hf) as If.
  cbn [risk_of fires r_access r_facade] in Ia, If.
  rewrite <- ER in Ia, If. rewrite ET in Ia, If. rewrite EF in If.
  fold r in Ia, If. clear ER ET EF.
  split; [| split].
  - subst r. unfold compute_all. destruct (build_risks _) as [risks checks].
    cbn [res_metrics touches_road].
    destruct (roads_buf_inter_len g) as [l|].
    + destruct (0.5 <? l) eqn:E; order_facts; split.
      * intros _. exists l. split; [reflexivity | exact E].
      * reflexivity.
      * intros H. discriminate H.
      * intros [l' [Eq Hl]]. injection Eq as <-. exfalso. lra.
    + split; [intros H; discriminate H | intros [l [Eq _]]; discriminate Eq].
  - rewrite Ia. destruct (roads_buf_inter_len g) as [l|].
    + destruct (0.5 <? l) eqn:E; order_facts; cbn [negb]; split.
      * intros H. discriminate H.
      * intros H. specialize (H l eq_refl). exfalso. lra.
      * intros _ l' Eq. injection Eq as <-. exact E.
      * reflexivity.
    + cbn [negb]. split; [intros _ l Eq; discriminate Eq | reflexivity].
  - rewrite If. destruct (roads_buf_inter_len g) as [l|].
    + destruct (0.5 <? l) eqn:E; destruct (l <? 8) eqn:E8; order_facts;
        cbn [andb]; split;
        try (intros H; discriminate H);
        try (intros [l' [Eq [H1 H2]]]; injection Eq as <-; exfalso; lra);
        try reflexivity.
      intros _. exists l. repeat split; assumption.
    + cbn [andb]. split; [intros H; discriminate H |].
      intros [l [Eq _]]. discriminate Eq.
Qed.

(** X16.  With the zero-filled elevation statistics (the fallback of
    compute_dem_stats) compute_all gives a slope sub-score of 55, counts 5
    flood points for flat terrain on top of those for the water distance,
    and reports the very-small-slope risk and not the steep-slope one,
    whatever the map features are. *)
Theorem compute_all_without_elevation :
  forall g : geo_inputs,
    let r := compute_all g zero_stats in
    slope (res_score r) == 55 /\
    risk_flood_pct (res_metrics r) = Some (water_points (md_waters g) + 5)%Z /\
    In risk_flat (risks_list r) /\
    ~ In risk_steep (risks_list r).
Proof.
  intros g r.
  destruct (compute_all_lists g zero_stats) as [ER _].
  destruct (compute_all_metrics g zero_stats) as [_ [_ ES]].
  destruct In_table_access_facade as [_ [_ [Hs Hf]]].
  pose proof (risk_in_iff_fires (res_metrics (compute_all g zero_stats)) r_steep Hs) as Is.
  pose proof (risk_in_iff_fires (res_metrics (compute_all g zero_stats)) r_flat Hf) as Ifl.
  cbn [risk_of fires r_steep r_flat] in Is, Ifl.
  rewrite <- ER in Is, Ifl. rewrite ES in Is, Ifl. fold r in Is, Ifl.
  split; [| split; [| split]].
  - subst r. unfold compute_all. destruct (build_risks _). reflexivity.
  - subst r. unfold compute_all. destruct (build_risks _).
    cbn [res_metrics risk_flood_pct]. f_equal.
    rewrite flood_risk_pct_sum.
    assert (El : lowness_points (Some 0.0) = 0%Z) by reflexivity.
    assert (Ef : flat_points (Some 0.0) = 5%Z) by reflexivity.
    unfold zero_stats. cbn [rel_lowness_m slope_indicative_pct].
    rewrite El, Ef. lia.
  - apply (proj2 Ifl). reflexivity.
  - intros H. pose proof (proj1 Is H) as H'. discriminate H'.
Qed.

(** ** Batches of sample points *)

Import DemFetch.

Lemma chunks_concat {A : Type} (s : nat) :
  (0 < s)%nat ->
  forall (n : nat) (lst : list A),
    (List.length lst <= n * s)%nat ->
    List.concat (map (fun k => firstn s (skipn (k * s) lst)) (seq 0 n)) = lst.
Proof.
  intros Hs. induction n as [| n IH]; intros lst Hlen.
  - destruct lst; [reflexivity | cbn in Hlen; lia].
  - transitivity (firstn s lst ++ skipn s lst); [| apply firstn_skipn].
    cbn [seq map List.concat Nat.mul skipn]. f_equal.
    rewrite <- seq_shift, map_map.
    rewrite <- (IH (skipn s lst)) by (rewrite length_skipn; lia).
    f_equal. apply map_ext. intros k.
    rewrite skipn_skipn. f_equal. f_equal. lia.
Qed.

Lemma chunk_count_covers (n s : nat) :
  (0 < s)%nat -> (n <= (n + s - 1) / s * s)%nat /\ ((n + s - 1) / s * s < n + s)%nat.
Proof.
  intros Hs.
  pose proof (Nat.div_mod (n + s - 1) s ltac:(lia)) as Hdm.
  pose proof (Nat.mod_upper_bound (n + s - 1) s ltac:(lia)) as Hm.
  nia.
Qed.

Lemma chunk_lengths {A : Type} (lst : list A) (s k : nat) :
  (0 < s)%nat -> (k < (List.length lst + s - 1) / s)%nat ->
  (1 <= List.length (firstn s (skipn (k * s) lst)) <= s)%nat /\
  (S k < (List.length lst + s - 1) / s ->
   List.length (firstn s (skipn (k * s) lst)) = s)%nat.
Proof.
  intros Hs Hk.
  destruct (chunk_count_covers (List.length lst) s Hs) as [C1 C2].
  rewrite length_firstn, length_skipn.
  assert (Hks : (k * s < List.length lst)%nat) by nia.
  split; [lia |]. intros Hk'.
  assert ((S k) * s < List.length lst)%nat by nia. lia.
Qed.

(** X17.  For a positive batch size, [_chunk] returns batches whose
    concatenation is the list itself, each with at least one and at most
    [size] elements and all but the last with exactly [size]; their number
    is the length divided by [size], rounded up.  A zero size raises a
    ValueError and a negative size yields no batch. *)
Theorem chunk_partitions :
  forall (A : Type) (lst : list A) (size : Z),
    (0 < size)%Z ->
    exists batches : list (list A),
      _chunk lst size = Ok batches /\
      List.concat batches = lst /\
      List.length batches
        = ((List.length lst + Z.to_nat size - 1) / Z.to_nat size)%nat /\
      Forall (fun b => (1 <= List.length b <= Z.to_nat size)%nat) batches /\
      (forall k, (S k < List.length batches)%nat ->
                 List.length (nth k batches []) = Z.to_nat size) /\
      _chunk lst 0 = Raise ValueError /\
      _chunk lst (- size) = Ok [].
Proof.
  intros A lst size Hsize.
  set (s := Z.to_nat size).
  assert (Hs : (0 < s)%nat) by (unfold s; lia).
  set (n := ((List.length lst + s - 1) / s)%nat).
  assert (E : _chunk lst size
              = Ok (map (fun k => firstn s (skipn (k * s) lst)) (seq 0 n))).
  { unfold _chunk, range_from_0.
    destruct (Z.eqb_spec size 0); [lia |].
    destruct (Z.ltb_spec size 0); [lia |].
    cbn [bind]. rewrite map_map. reflexivity. }
  eexists. split; [exact E |].
  split; [| split; [| split; [| split; [| split]]]].
  - apply chunks_concat; [exact Hs |].
    apply (chunk_count_covers (List.length lst) s Hs).
  - now rewrite length_map, length_seq.
  - apply Forall_forall. intros b Hb. apply in_map_iff in Hb.
    destruct Hb as [k [<- Hk]]. apply in_seq in Hk.
    apply chunk_lengths; [exact Hs | fold n; lia].
  - intros k Hk. rewrite length_map, length_seq in Hk.
    rewrite (nth_indep _ [] (firstn s (skipn (0 * s) lst)))
      by (rewrite length_map, length_seq; lia).
    rewrite (map_nth (fun k => firstn s (skipn (k * s) lst))).
    rewrite seq_nth by lia. cbn [Nat.add].
    apply chunk_lengths; [exact Hs | fold n; lia | fold n; lia].
  - reflexivity.
  - unfold _chunk, range_from_0.
    destruct (Z.eqb_spec (- size) 0); [lia |].
    destruct (Z.ltb_spec (- size) 0); [| lia]. reflexivity.
Qed.

Lemma chunk_partitions_witness :
  exists batches : list (list nat),
    _chunk (seq 0 7) 3 = Ok batches /\ List.concat batches = seq 0 7.
Proof.
  destruct (chunk_partitions nat (seq 0 7) 3 ltac:(lia)) as [b [E [C _]]].
  exists b. split; [exact E | exact C].
Defined.

(** ** More on the elevation sampler *)

Lemma spec_inside_incl (pts_inside : list bool) (vs : list Q) :
  incl (spec_inside_population pts_inside (map Some vs))
       (firstn (List.length pts_inside) vs).
Proof.
  revert vs. induction pts_inside as [| b flags IH]; intros vs.
  - intros x [].
  - destruct vs as [| v vs]; [intros x [] |].
    cbn [map spec_inside_population List.length firstn].
    destruct b.
    + intros x [<- | Hx]; [left; reflexivity | right; now apply IH].
    + intros x Hx. right. now apply IH.
Qed.

Lemma spec_all_population_nil (elev : list (option Q)) :
  spec_all_population elev = [] <-> Forall (fun e => e = None) elev.
Proof.
  induction elev as [| [h|] elev IH]; cbn [spec_all_population].
  - split; [constructor | reflexivity].
  - split; [discriminate | intros H; inversion H; discriminate].
  - rewrite IH. split; [now constructor | intros H; now inversion H].
Qed.

Lemma spec_all_population_length (elev : list (option Q)) :
  (List.length (spec_all_population elev) <= List.length elev)%nat.
Proof.
  induction elev as [| [h|] elev IH]; cbn [spec_all_population List.length]; lia.
Qed.

(** X18.  The early return on missing data happens exactly when every
    looked-up elevation is null.  Otherwise every elevation of the inside
    population is also in the all population, the inside population is not
    empty when there is a sample point, and the all population is the list
    of all non-null elevations, in order, when the lookup returned at most
    one value per sample point. *)
Theorem elev_populations_invariants :
  forall (pts_inside : list bool) (elev : list (option Q)),
    (elev_populations pts_inside elev = None
       <-> Forall (fun e => e = None) elev) /\
    forall elev_in elev_all,
      elev_populations pts_inside elev = Some (elev_in, elev_all) ->
      incl elev_in elev_all /\
      (pts_inside <> [] -> elev_in <> [] /\ elev_all <> []) /\
      ((List.length elev <= List.length pts_inside)%nat ->
       elev_all = spec_all_population elev).
Proof.
  intros pts elev. rewrite elev_populations_compacted.
  rewrite <- spec_all_population_nil.
  pose proof (spec_all_population_length elev) as Hlen.
  destruct (spec_all_population elev) as [| v vs] eqn:E.
  - split; [split; reflexivity |]. intros ein eall H. discriminate H.
  - split; [split; discriminate |].
    intros ein eall H. cbv zeta in H.
    pose proof (spec_inside_incl pts (v :: vs)) as Hincl.
    set (ins := spec_inside_population pts (map Some (v :: vs))) in *.
    injection H as <- <-.
    split; [| split].
    + destruct ins; [apply incl_refl | exact Hincl].
    + intros Hne. destruct pts as [| b flags]; [contradiction |].
      cbn [List.length firstn].
      split; [| discriminate].
      destruct ins; discriminate.
    + intros Hle. apply firstn_all2. lia.
Qed.

Lemma elev_populations_invariants_witness :
  snd (match elev_populations [true; false; true] [Some 7; None; Some 9] with
       | Some p => p
       | None => ([], [])
       end) = spec_all_population [Some 7; None; Some 9].
Proof.
  destruct (elev_populations [true; false; true] [Some 7; None; Some 9])
    as [[ein eall] |] eqn:E; [| discriminate E].
  cbn [snd].
  apply (proj2 (elev_populations_invariants
                  [true; false; true] [Some 7; None; Some 9]) ein eall E).
  cbn. lia.
Defined.

(** X19.  When no looked-up elevation is null and there is one value
    per sample point, the two populations are those of the specification:
    all elevations, and those sampled at the points inside the parcel (or
    all of them when no point is inside). *)
Theorem elev_populations_aligned_without_nulls :
  forall (pts_inside : list bool) (vs : list Q),
    List.length pts_inside = List.length vs -> vs <> [] ->
    elev_populations pts_inside (map Some vs)
    = Some (spec_populations pts_inside (map Some vs)).
Proof. exact elev_populations_no_null. Qed.

Lemma elev_populations_aligned_without_nulls_witness :
  elev_populations [false; true; false] (map Some [5; 10; 20])
  = Some ([10], [5; 10; 20]).
Proof.
  rewrite (elev_populations_aligned_without_nulls
             [false; true; false] [5; 10; 20] eq_refl
             ltac:(discriminate)).
  reflexivity.
Defined.

(** *** The grid and the sample points *)

Lemma grid_counts_at_least_5 (w h step_m : Q) (max_pts nx ny : Z) :
  grid_counts w h step_m max_pts = Ok (nx, ny) -> (5 <= nx)%Z /\ (5 <= ny)%Z.
Proof.
  unfold grid_counts.
  destruct (Qeq_bool step_m 0); [discriminate |].
  destruct (_ <? _)%Z.
  - destruct (max_pts =? 0)%Z; [discriminate |].
    destruct (max_pts <? 0)%Z; [discriminate |].
    intros H. injection H as <- <-. split; apply Z.le_max_l.
  - intros H. injection H as <- <-. split; apply Z.le_max_l.
Qed.

Lemma linspace_within (start stop : Q) (num : Z) :
  (2 <= num)%Z -> start <= stop ->
  Forall (fun x => start <= x /\ x <= stop) (linspace start stop num) /\
  hd start (linspace start stop num) == start /\
  last (linspace start stop num) start == stop.
Proof.
  intros Hnum Hle. unfold linspace.
  set (q := (stop - start) / inject_Z (num - 1)).
  assert (Hden : 0 < inject_Z (num - 1)).
  { change 0 with (inject_Z 0). rewrite <- Zlt_Qlt. lia. }
  assert (Hq : 0 <= q).
  { unfold q. apply Qle_shift_div_l; [exact Hden | lra]. }
  assert (Hqd : inject_Z (num - 1) * q == stop - start).
  { unfold q. field. lra. }
  split; [| split].
  - apply Forall_forall. intros x Hx. apply in_map_iff in Hx.
    destruct Hx as [i [<- Hi]]. apply in_seq in Hi.
    assert (Hi0 : 0 <= inject_Z (Z.of_nat i)).
    { change 0 with (inject_Z 0). rewrite <- Zle_Qle. lia. }
    assert (Hi1 : inject_Z (Z.of_nat i) <= inject_Z (num - 1)).
    { rewrite <- Zle_Qle. lia. }
    assert (H0 : 0 <= inject_Z (Z.of_nat i) * q) by (apply Qmult_le_0_compat; assumption).
    assert (H1 : inject_Z (Z.of_nat i) * q <= inject_Z (num - 1) * q)
      by (apply Qmult_le_compat_r; assumption).
    split; lra.
  - destruct (Z.to_nat num) as [| n] eqn:E; [lia |].
    cbn [seq map hd]. change (inject_Z (Z.of_nat 0)) with 0. ring.
  - replace (Z.to_nat num) with (S (Z.to_nat (num - 1))) by lia.
    rewrite seq_S, map_app. cbn [map]. rewrite last_last.
    cbn [Nat.add]. rewrite Z2Nat.id by lia. lra.
Qed.

(** X20.  When [_expand_grid] returns, each axis has at least five
    coordinates, all within the bounds of the box, the first at the lower
    bound and the last at the upper bound. *)
Theorem expand_grid_within_bounds :
  forall (minx miny maxx maxy step_m : Q) (max_pts : Z) (xs ys : list Q),
    minx <= maxx -> miny <= maxy ->
    _expand_grid (minx, miny, maxx, maxy) step_m max_pts = Ok (xs, ys) ->
    (5 <= List.length xs)%nat /\ (5 <= List.length ys)%nat /\
    Forall (fun x => minx <= x /\ x <= maxx) xs /\
    Forall (fun y => miny <= y /\ y <= maxy) ys /\
    hd minx xs == minx /\ last xs minx == maxx /\
    hd miny ys == miny /\ last ys miny == maxy.
Proof.
  intros minx miny maxx maxy step_m max_pts xs ys Hx Hy.
  unfold _expand_grid.
  destruct (grid_counts _ _ _ _) as [[nx ny] | e] eqn:E; cbn [bind];
    [| discriminate].
  destruct (grid_counts_at_least_5 _ _ _ _ _ _ E) as [Hnx Hny].
  intros H. injection H as <- <-.
  rewrite !length_linspace.
  destruct (linspace_within minx maxx nx ltac:(lia) Hx) as [Fx [Hhx Hlx]].
  destruct (linspace_within miny maxy ny ltac:(lia) Hy) as [Fy [Hhy Hly]].
  split; [lia |]. split; [lia |]. tauto.
Qed.

Lemma expand_grid_within_bounds_witness :
  Forall (fun x => 0 <= x /\ x <= 600)
         (fst (match _expand_grid (0, 0, 600, 300) 60 500 with
               | Ok p => p
               | Raise _ => ([], [])
               end)).
Proof.
  destruct (_expand_grid (0, 0, 600, 300) 60 500) as [[xs ys] | e] eqn:E;
    [| constructor].
  cbn [fst].
  refine (proj1 (proj2 (proj2
            (expand_grid_within_bounds 0 0 600 300 60 500 xs ys _ _ E))));
    unfold Qle; simpl; lia.
Defined.

Lemma length_flat_map_grid {A B : Type} (xs : list A) (ys : list B) :
  List.length (flat_map (fun x => map (fun y => (x, y)) ys) xs)
  = (List.length xs * List.length ys)%nat.
Proof.
  induction xs as [| x xs IH]; [reflexivity |].
  cbn [flat_map]. rewrite length_app, length_map, IH. cbn [List.length]. lia.
Qed.

(** X21.  When [sample_points] returns, there is exactly one inside flag
    per sample point and at least one sample point; there are at most as
    many as the grid has points; and when no grid point lies in the buffer
    the only sample is the parcel centroid, flagged inside. *)
Theorem sample_points_aligned :
  forall (geom : parcel) (step_m buffer_m : Q)
         (pts_inside : list bool) (latlons : list point),
    sample_points geom step_m buffer_m = Ok (pts_inside, latlons) ->
    List.length pts_inside = List.length latlons /\
    (1 <= List.length pts_inside)%nat /\
    exists xs ys,
      _expand_grid (buffer_bounds geom buffer_m) step_m 500 = Ok (xs, ys) /\
      (List.length pts_inside <= List.length xs * List.length ys)%nat /\
      (filter (buffer_contains geom buffer_m)
              (flat_map (fun x => map (fun y => (x, y)) ys) xs) = [] ->
       pts_inside = [true] /\
       latlons = [(snd (to_wgs_tf geom (centroid_utm geom)),
                   fst (to_wgs_tf geom (centroid_utm geom)))]).
Proof.
  intros geom step_m buffer_m pi ll. unfold sample_points.
  destruct (_expand_grid _ _ _) as [[xs ys] | e] eqn:E; cbn [bind];
    [| discriminate].
  assert (Hgrid : (25 <= List.length xs * List.length ys)%nat).
  { destruct (buffer_bounds geom buffer_m) as [[[minx miny] maxx] maxy].
    unfold _expand_grid in E.
    destruct (grid_counts _ _ _ _) as [[nx ny] | e] eqn:G; cbn [bind] in E;
      [| discriminate].
    destruct (grid_counts_at_least_5 _ _ _ _ _ _ G) as [Hnx Hny].
    injection E as <- <-. rewrite !length_linspace. nia. }
  pose proof (filter_length_le (buffer_contains geom buffer_m)
                (flat_map (fun x => map (fun y => (x, y)) ys) xs)) as Hfl.
  unfold point in Hfl. rewrite length_flat_map_grid in Hfl.
  destruct (filter _ _) as [| p pts] eqn:F; intros H; injection H as <- <-.
  - cbn [map List.length]. split; [reflexivity |]. split; [lia |].
    exists xs, ys. split; [reflexivity |]. split; [lia |].
    intros _. split; [reflexivity |].
    destruct (to_wgs_tf geom (centroid_utm geom)); reflexivity.
  - cbn [map List.length] in *. rewrite !length_map.
    split; [reflexivity |]. split; [lia |].
    exists xs, ys. split; [reflexivity |]. split; [exact Hfl |].
    intros H. pose proof (eq_trans (eq_sym F) H) as C. discriminate C.
Qed.

Lemma sample_points_aligned_witness :
  exists pts_inside latlons,
    sample_points square_parcel 60 200 = Ok (pts_inside, latlons) /\
    List.length pts_inside = List.length latlons.
Proof.
  destruct (sample_points square_parcel 60 200) as [[pi ll] | e] eqn:E;
    [| vm_compute in E; discriminate E].
  exists pi, ll. split; [reflexivity |].
  exact (proj1 (sample_points_aligned square_parcel 60 200 pi ll E)).
Defined.

(** *** What compute_dem_stats returns *)





Lemma repeat_None_Forall (n : nat) :
  Forall (fun e : option Q => e = None) (repeat None n).
Proof. induction n; constructor; auto. Qed.

(** X23.  When both elevation providers fail, [_get_elevations] returns
    one null per point, and compute_dem_stats (with a non-zero spacing)
    then returns the zero-filled statistics instead of an error. *)
Theorem get_elevations_fallback :
  forall (np : numpy) (fetch1 fetch2 : list point -> fetched)
         (geom : parcel) (step_m buffer_m : Q),
    ~ step_m == 0 ->
    (forall pts, fetch1 pts = FetchFailed) ->
    (forall pts, fetch2 pts = FetchFailed) ->
    (forall pts, _get_elevations fetch1 fetch2 pts
                 = repeat None (List.length pts)) /\
    compute_dem_stats np (_get_elevations fetch1 fetch2) geom step_m buffer_m
      = Ok zero_stats.
Proof.
  intros np f1 f2 geom step_m buffer_m Hstep H1 H2.
  assert (Hall : forall pts, _get_elevations f1 f2 pts
                             = repeat None (List.length pts)).
  { intros pts. unfold _get_elevations. now rewrite H1, H2. }
  split; [exact Hall |].
  destruct (sample_points_ok geom step_m buffer_m Hstep) as [pi [ll E]].
  unfold compute_dem_stats. rewrite E. cbn [bind].
  apply stats_of_lookup_all_null. rewrite Hall. apply repeat_None_Forall.
Qed.

Lemma get_elevations_fallback_witness :
  compute_dem_stats numpy_q
    (_get_elevations (fun _ => FetchFailed) (fun _ => FetchFailed))
    square_parcel 60 200 = Ok zero_stats.
Proof.
  apply (get_elevations_fallback numpy_q (fun _ => FetchFailed)
           (fun _ => FetchFailed) square_parcel 60 200).
  - intros H. discriminate H.
  - reflexivity.
  - reflexivity.
Defined.

(** ** Map features: _collect_geoms *)

Import Overpass OverpassExamples.

Lemma collect_loop_acc (po lo : list coord -> bool) (f : tags -> option string -> bool)
      (els : list element) (acc : list geometry) :
  collect_loop po lo els f acc
    = match collect_loop po lo els f [] with
      | Done g => Done (acc ++ g)
      | Raised e => Raised e
      end.
Proof.
  revert acc. induction els as [| el rest IH]; intros acc; cbn [collect_loop].
  - rewrite app_nil_r. reflexivity.
  - destruct (negb _); [apply IH |].
    destruct (geoms_of_element po lo el) as [g | e]; [| reflexivity].
    rewrite (IH (acc ++ g)), (IH ([] ++ g)). cbn [app].
    destruct (collect_loop po lo rest f []) as [G | e]; [| reflexivity].
    rewrite app_assoc. reflexivity.
Qed.

Lemma collect_loop_cons (po lo : list coord -> bool) (f : tags -> option string -> bool)
      (el : element) (rest : list element) :
  collect_loop po lo (el :: rest) f []
    = if passes f el then
        match geoms_of_element po lo el with
        | Done g =>
            match collect_loop po lo rest f [] with
            | Done G => Done (g ++ G)
            | Raised e => Raised e
            end
        | Raised e => Raised e
        end
      else collect_loop po lo rest f [].
Proof.
  cbn [collect_loop]. unfold passes.
  destruct (f _ _); cbn [negb]; [| reflexivity].
  destruct (geoms_of_element po lo el) as [g | e]; [| reflexivity].
  rewrite collect_loop_acc. reflexivity.
Qed.

Lemma collect_loop_weaker (po lo : list coord -> bool)
      (f g : tags -> option string -> bool) (els : list element) :
  (forall el, passes f el = true -> passes g el = true) ->
  forall G, collect_loop po lo els g [] = Done G ->
            exists F, collect_loop po lo els f [] = Done F /\ incl F G.
Proof.
  intros Hfg. induction els as [| el rest IH]; intros G HG.
  - exists []. split; [reflexivity | apply incl_nil_l].
  - rewrite collect_loop_cons in HG. rewrite collect_loop_cons.
    destruct (passes g el) eqn:Eg.
    + destruct (geoms_of_element po lo el) as [x | e]; [| discriminate HG].
      destruct (collect_loop po lo rest g []) as [G' | e]; [| discriminate HG].
      injection HG as <-.
      destruct (IH G' eq_refl) as [F' [EF HF]]. rewrite EF.
      destruct (passes f el).
      * exists (x ++ F'). split; [reflexivity |].
        apply incl_app_app; [apply incl_refl | exact HF].
      * exists F'. split; [reflexivity |]. apply incl_appr. exact HF.
    + destruct (passes f el) eqn:Ef.
      * rewrite (Hfg el Ef) in Eg. discriminate Eg.
      * apply IH. exact HG.
Qed.

Lemma collect_loop_none (po lo : list coord -> bool)
      (f : tags -> option string -> bool) (els : list element) :
  (forall el, In el els -> passes f el = false) ->
  collect_loop po lo els f [] = Done [].
Proof.
  induction els as [| el rest IH]; intros H; [reflexivity |].
  rewrite collect_loop_cons, (H el (or_introl eq_refl)).
  apply IH. intros x Hx. apply H. right. exact Hx.
Qed.

Lemma existsb_app_l {A : Type} (p : A -> bool) (l1 l2 : list A) :
  existsb p l1 = true -> existsb p (l1 ++ l2) = true.
Proof. intros H. rewrite existsb_app, H. reflexivity. Qed.

Lemma roads_major_passes_all (el : element) :
  passes f_roads_major el = true -> passes f_roads_all el = true.
Proof.
  unfold passes, f_roads_major, f_roads_all, ROAD_TAGS_ALL, str_in.
  intros H. apply andb_true_iff in H. destruct H as [H1 H2].
  rewrite H2, andb_true_r.
  destruct (tag_get _ _) as [v |]; [| discriminate H1].
  apply existsb_app_l. exact H1.
Qed.

(** X24.  Every geometry collected for the major roads is also collected
    for all roads, and when the collection of all roads returns, that of
    the major roads returns too; in particular no major road is found
    where no road is found. *)
Theorem roads_major_within_roads_all :
  forall (polygon_ok linestring_ok : list coord -> bool)
         (elements : option (list element)) (roads_all : list geometry),
    _collect_geoms polygon_ok linestring_ok elements f_roads_all = Done roads_all ->
    exists roads_major,
      _collect_geoms polygon_ok linestring_ok elements f_roads_major = Done roads_major /\
      incl roads_major roads_all /\
      (roads_all = [] -> roads_major = []).
Proof.
  intros po lo elements roads_all H. unfold _collect_geoms in *.
  destruct (collect_loop_weaker po lo f_roads_major f_roads_all _
              roads_major_passes_all roads_all H) as [F [EF HF]].
  exists F. split; [exact EF |]. split; [exact HF |].
  intros ->. destruct F as [| x F]; [reflexivity |].
  destruct (HF x (or_introl eq_refl)).
Qed.

Lemma roads_major_within_roads_all_witness :
  exists roads_major,
    _collect_geoms always_ok always_ok answer f_roads_major = Done roads_major /\
    incl roads_major [LineString [(0, 2); (3, 2)]; LineString [(0, 5); (3, 5)]].
Proof.
  destruct (roads_major_within_roads_all always_ok always_ok answer
              [LineString [(0, 2); (3, 2)]; LineString [(0, 5); (3, 5)]] eq_refl)
    as [roads_major [E [Hincl _]]].
  exists roads_major. split; [exact E | exact Hincl].
Defined.

Lemma coord_eqb_refl (c : coord) : coord_eqb c c = true.
Proof.
  unfold coord_eqb. apply andb_true_iff.
  split; apply Qeq_bool_iff; reflexivity.
Qed.

Lemma last_snoc {A : Type} (l : list A) (x d : A) : last (l ++ [x]) d = x.
Proof.
  induction l as [| a l IH]; [reflexivity |].
  cbn [app]. destruct l as [| b l]; [reflexivity |]. exact IH.
Qed.

Lemma close_ring_closed (coords : list coord) (c0 : coord) :
  hd_error (close_ring coords) = Some c0 ->
  coord_eqb c0 (last (close_ring coords) c0) = true.
Proof.
  unfold close_ring. destruct coords as [| c rest]; [intros H; discriminate H |].
  destruct (coord_eqb c (last (c :: rest) c)) eqn:E; cbn [negb].
  - intros H. injection H as <-. exact E.
  - change ((c :: rest) ++ [c]) with (c :: (rest ++ [c])).
    intros H. injection H as <-.
    change (c :: (rest ++ [c])) with ((c :: rest) ++ [c]).
    rewrite last_snoc. apply coord_eqb_refl.
Qed.

Lemma geoms_of_element_shape (po lo : list coord -> bool) (el : element)
      (g : list geometry) :
  geoms_of_element po lo el = Done g ->
  List.length g = Nat.b2n (yields_geometry el) /\
  (forall coords c0, In (Polygon coords) g -> hd_error coords = Some c0 ->
                     coord_eqb c0 (last coords c0) = true) /\
  (forall lon lat, In (Point lon lat) g -> el_geometry el = None).
Proof.
  unfold geoms_of_element, yields_geometry, make_linestring.
  destruct (el_geometry el) as [coords |].
  - destruct (str_is (el_type el) "way").
    + destruct (area_like _).
      * destruct (po (close_ring coords)).
        -- intros H. injection H as <-. split; [reflexivity |]. split.
           ++ intros cs c0 [Hin | []] Hhd. injection Hin as <-.
              apply close_ring_closed. exact Hhd.
           ++ intros lon lat [Hin | []]. discriminate Hin.
        -- destruct (lo (close_ring coords)); intros H; [| discriminate H].
           injection H as <-. split; [reflexivity |]. split.
           ++ intros cs c0 [Hin | []]. discriminate Hin.
           ++ intros lon lat [Hin | []]. discriminate Hin.
      * destruct (lo coords); intros H; [| discriminate H].
        injection H as <-. split; [reflexivity |]. split.
        -- intros cs c0 [Hin | []]. discriminate Hin.
        -- intros lon lat [Hin | []]. discriminate Hin.
    + intros H. injection H as <-. split; [reflexivity |].
      split; [intros cs c0 [] | intros lon lat []].
  - destruct (str_is (el_type el) "node").
    + destruct (el_lon el) as [lon |]; [| intros H; discriminate H].
      destruct (el_lat el) as [lat |]; intros H; [| discriminate H].
      injection H as <-. split; [reflexivity |]. split.
      * intros cs c0 [Hin | []]. discriminate Hin.
      * reflexivity.
    + intros H. injection H as <-. split; [reflexivity |].
      split; [intros cs c0 [] | intros lon lat []].
Qed.

Lemma collect_loop_shape (po lo : list coord -> bool)
      (f : tags -> option string -> bool) (els : list element) :
  forall G, collect_loop po lo els f [] = Done G ->
    List.length G
      = List.length (filter (fun el => passes f el && yields_geometry el) els) /\
    (forall coords c0, In (Polygon coords) G -> hd_error coords = Some c0 ->
                       coord_eqb c0 (last coords c0) = true).
Proof.
  induction els as [| el rest IH]; intros G HG.
  - injection HG as <-. split; [reflexivity | intros cs c0 []].
  - rewrite collect_loop_cons in HG. cbn [filter].
    destruct (passes f el); cbn [andb]; [| apply IH; exact HG].
    destruct (geoms_of_element po lo el) as [g | e] eqn:Eg; [| discriminate HG].
    destruct (collect_loop po lo rest f []) as [G' | e]; [| discriminate HG].
    injection HG as <-.
    destruct (geoms_of_element_shape po lo el g Eg) as [Hlen [Hpoly _]].
    destruct (IH G' eq_refl) as [IHlen IHpoly].
    split.
    + rewrite length_app, Hlen, IHlen.
      destruct (yields_geometry el); reflexivity.
    + intros cs c0 Hin Hhd. apply in_app_iff in Hin.
      destruct Hin as [Hin | Hin]; [exact (Hpoly cs c0 Hin Hhd) |].
      exact (IHpoly cs c0 Hin Hhd).
Qed.

(** X25.  When _collect_geoms returns, it has one geometry for each
    element that passes the filter and is either a way with a geometry or
    a node without one, and none for any other element (relations, ways
    without a geometry, nodes that carry one); every polygon in the result
    has a closed ring, its first coordinate pair equal to its last. *)
Theorem collect_geoms_shape :
  forall (polygon_ok linestring_ok : list coord -> bool)
         (filter_fn : tags -> option string -> bool)
         (overpass_elements : option (list element)) (geoms : list geometry),
    _collect_geoms polygon_ok linestring_ok overpass_elements filter_fn = Done geoms ->
    List.length geoms
      = List.length
          (filter (fun el => passes filter_fn el && yields_geometry el)
                  (match overpass_elements with Some l => l | None => [] end)) /\
    (forall coords c0,
       In (Polygon coords) geoms -> hd_error coords = Some c0 ->
       coord_eqb c0 (last coords c0) = true).
Proof.
  intros po lo f data geoms H.
  apply (collect_loop_shape po lo f _ geoms H).
Qed.

Lemma collect_geoms_shape_witness :
  _collect_geoms always_ok always_ok answer f_waters
    = Done [Polygon [(0, 0); (1, 0); (1, 1); (0, 0)]] /\
  List.length [Polygon [(0, 0); (1, 0); (1, 1); (0, 0)]] = 1%nat.
Proof.
  split; [reflexivity |].
  exact (proj1 (collect_geoms_shape always_ok always_ok f_waters answer
                  [Polygon [(0, 0); (1, 0); (1, 1); (0, 0)]] eq_refl)).
Defined.

(** ** compute_all on an answer without roads *)

Lemma compute_all_no_roads (g : geo_inputs) (ds : dem_stats) :
  md_roads_major g = None -> md_roads_all g = None ->
  roads_buf_inter_len g = None ->
  let r := compute_all g ds in
  d_road_m (res_metrics r) = None /\
  touches_road (res_metrics r) = Some false /\
  facade_len_m (res_metrics r) = Some 0.0 /\
  access (res_score r) == 0 /\
  In risk_no_road (risks_list r) /\
  ~ In risk_facade (risks_list r).
Proof.
  intros Hmaj Hall Hbuf r.
  destruct (compute_all_lists g ds) as [ER _].
  destruct (compute_all_metrics g ds) as [ET [EF _]].
  destruct In_table_access_facade as [Ha [Hf _]].
  pose proof (risk_in_iff_fires (res_metrics (compute_all g ds)) r_access Ha) as Ia.
  pose proof (risk_in_iff_fires (res_metrics (compute_all g ds)) r_facade Hf) as If.
  cbn [risk_of fires r_access r_facade] in Ia, If.
  rewrite <- ER in Ia, If. rewrite ET in Ia, If. rewrite EF in If.
  rewrite Hbuf in Ia, If. fold r in Ia, If. clear ER ET EF.
  split; [| split; [| split; [| split; [| split]]]].
  - subst r. unfold compute_all. destruct (build_risks _).
    cbn [res_metrics d_road_m]. rewrite Hmaj, Hall. reflexivity.
  - subst r. unfold compute_all. destruct (build_risks _).
    cbn [res_metrics touches_road]. rewrite Hbuf. reflexivity.
  - subst r. unfold compute_all. destruct (build_risks _).
    cbn [res_metrics facade_len_m]. rewrite Hbuf. reflexivity.
  - subst r. unfold compute_all. destruct (build_risks _).
    cbn [res_score access]. rewrite Hmaj, Hall. reflexivity.
  - apply (proj2 Ia). reflexivity.
  - intros H. pose proof (proj1 If H) as H'. discriminate H'.
Qed.

(** X26.  When the Overpass answer has no way with a highway tag from the
    road list, and compute_all returns, the result has no road distance,
    does not touch a road, has facade length 0, access sub-score 0, and
    reports the no-road-access risk and not the narrow-facade one. *)
Theorem compute_all_osm_without_roads :
  forall (polygon_ok linestring_ok : list coord -> bool)
         (to_utm : geometry -> geometry) (parcel_distance : list geometry -> Q)
         (inter_is_empty : list geometry -> bool) (inter_length : list geometry -> Q)
         (elements : list element) (ds : dem_stats) (r : metric_result),
    (forall el, In el elements -> passes f_roads_all el = false) ->
    compute_all_osm polygon_ok linestring_ok to_utm parcel_distance
                    inter_is_empty inter_length (Some elements) ds = Done r ->
    d_road_m (res_metrics r) = None /\
    touches_road (res_metrics r) = Some false /\
    facade_len_m (res_metrics r) = Some 0.0 /\
    access (res_score r) == 0 /\
    In risk_no_road (risks_list r) /\
    ~ In risk_facade (risks_list r).
Proof.
  intros po lo tu pd ie il elements ds r Hnone H.
  assert (Hall : _collect_geoms po lo (Some elements) f_roads_all = Done [])
    by (apply collect_loop_none; exact Hnone).
  assert (Hmaj : _collect_geoms po lo (Some elements) f_roads_major = Done []).
  { apply collect_loop_none. intros el Hel.
    destruct (passes f_roads_major el) eqn:E; [| reflexivity].
    rewrite <- (Hnone el Hel). symmetry. apply roads_major_passes_all. exact E. }
  unfold compute_all_osm, geo_inputs_of in H.
  rewrite Hmaj, Hall in H. cbn [bind] in H.
  repeat match type of H with
         | context [bind (_collect_geoms ?a ?b ?c ?d) _] =>
             destruct (_collect_geoms a b c d); cbn [bind] in H;
             [| discriminate H]
         end.
  injection H as <-.
  apply compute_all_no_roads; reflexivity.
Qed.

Lemma compute_all_osm_without_roads_witness :
  exists r,
    compute_all_osm always_ok always_ok (fun g => g) distance_100
                    never_empty length_20 (Some answer_without_roads) zero_stats
      = Done r /\
    d_road_m (res_metrics r) = None /\
    In risk_no_road (risks_list r).
Proof.
  eexists. split; [reflexivity |].
  assert (Hnone : forall el, In el answer_without_roads ->
                             passes f_roads_all el = false).
  { intros el [<- | [<- | []]]; reflexivity. }
  destruct (compute_all_osm_without_roads always_ok always_ok (fun g => g)
              distance_100 never_empty length_20 answer_without_roads
              zero_stats _ Hnone eq_refl) as [Hd [_ [_ [_ [Hr _]]]]].
  split; [exact Hd | exact Hr].
Defined.

(** ** The search box and the house check *)

(** X27.  For a non-negative margin, and a cosine that is at most 1,
    expand_bbox moves the south and north sides out by meters / 111000
    degrees and the west and east sides by one common amount, which is at
    least the latitude margin and at most ten times it: the box returned
    contains the box given, and the division is never by zero. *)
Theorem expand_bbox_contains :
  forall (math_cos math_radians : Q -> Q) (minx miny maxx maxy meters : Q),
    0 <= meters ->
    (forall x, math_cos x <= 1) ->
    exists dlon dlat,
      expand_bbox math_cos math_radians (minx, miny, maxx, maxy) meters
        = (minx - dlon, miny - dlat, maxx + dlon, maxy + dlat) /\
      dlat == meters / 111000 /\
      0 <= dlat /\ dlat <= dlon /\ dlon <= 10 * dlat /\
      ~ 111000.0 * Qmax (math_cos (math_radians ((miny + maxy) / 2.0))) 0.1 == 0.
Proof.
  intros mcos mrad minx miny maxx maxy meters Hm Hcos.
  set (c := Qmax (mcos (mrad ((miny + maxy) / 2.0))) 0.1).
  assert (Hc1 : 0.1 <= c) by (apply Q.le_max_r).
  assert (Hc2 : c <= 1).
  { unfold c. apply Q.max_lub; [apply Hcos | lra]. }
  exists (meters / (111000.0 * c)), (meters / 111000.0).
  split; [reflexivity |].
  assert (Hd : meters / (111000.0 * c) == meters / 111000.0 / c)
    by (field; lra).
  assert (Hlat : 0 <= meters / 111000.0) by (apply Qle_shift_div_l; lra).
  set (dlat := meters / 111000.0) in *.
  split; [unfold dlat; field |].
  split; [exact Hlat |].
  split; [| split].
  - rewrite Hd. apply Qle_shift_div_l; [lra |]. nra.
  - rewrite Hd. apply Qle_shift_div_r; [lra |]. nra.
  - lra.
Qed.

Lemma expand_bbox_contains_witness :
  exists dlon dlat,
    expand_bbox cos_at_60 (fun x => x) (30, 59.9, 30.1, 60.1) 2000
      = (30 - dlon, 59.9 - dlat, 30.1 + dlon, 60.1 + dlat) /\
    dlat <= dlon /\ dlon <= 10 * dlat.
Proof.
  assert (H0 : 0 <= 2000) by lra.
  assert (Hc : forall x, cos_at_60 x <= 1) by (intros x; unfold cos_at_60; lra).
  destruct (expand_bbox_contains cos_at_60 (fun x => x) 30 59.9 30.1 60.1 2000 H0 Hc)
    as [dlon [dlat [E [_ [_ [H1 [H2 _]]]]]]].
  exists dlon, dlat. split; [exact E |]. split; [exact H1 | exact H2].
Defined.

Lemma Qle_bool_false (a b : Q) : Qle_bool a b = false -> b < a.
Proof.
  intros H. apply Qnot_le_lt. intros Hle.
  apply Qle_bool_iff in Hle. rewrite Hle in H. discriminate H.
Qed.

(** X28.  The two values that compute_all unpacks as width and height are
    the two shortest of the four rectangle edges, so the house check
    holds exactly when all four edges are at least 10; for a rectangle
    with equal opposite edges both values are the shorter side. *)
Theorem can_house_all_edges :
  forall e0 e1 e2 e3 : Q,
    exists width height,
      house_sides e0 e1 e2 e3 = Some (width, height) /\
      width <= height /\
      (width <= e0 /\ width <= e1 /\ width <= e2 /\ width <= e3) /\
      (can_house_10x10 e0 e1 e2 e3 = Some true <->
         10 <= e0 /\ 10 <= e1 /\ 10 <= e2 /\ 10 <= e3) /\
      (e0 == e2 -> e1 == e3 -> width == height).
Proof.
  intros e0 e1 e2 e3.
  unfold can_house_10x10, house_sides, sort_q.
  cbn [fold_right insert_sorted].
  repeat match goal with
         | |- context [Qle_bool ?a ?b] =>
             let E := fresh "E" in
             destruct (Qle_bool a b) eqn:E;
             [apply Qle_bool_iff in E | apply Qle_bool_false in E];
             cbn [insert_sorted]
         end;
    try (exfalso; lra);
    (do 2 eexists; split; [reflexivity |];
     split; [lra |]; split; [repeat split; lra |]; split;
     [| intros; lra];
     match goal with
     | |- Some (?a && ?b) = Some true <-> _ =>
         destruct a eqn:Ea; destruct b eqn:Eb; order_facts; cbn [andb];
         (split; [intros H; try discriminate H; repeat split; lra
                 | intros [H0 [H1 [H2 H3]]]; try reflexivity; exfalso; lra])
     end).
Qed.

(** ** Wrapping and drawing text *)

Import PdfText PdfTextExamples.

Section WrapFacts.

Variable char : Type.
Variable isspace : char -> bool.
Variable space : char.
Hypothesis space_isspace : isspace space = true.

Let nonspace (c : char) : Prop := isspace c = false.

Lemma lstrip_start (l : list char) :
  starts_nonspace isspace l -> lstrip isspace l = l.
Proof.
  destruct l as [| c l]; [reflexivity |].
  cbn [starts_nonspace lstrip]. intros ->. reflexivity.
Qed.

Lemma strip_trimmed (l : list char) : trimmed isspace l -> strip isspace l = l.
Proof.
  intros [H1 H2]. unfold strip, rstrip.
  rewrite (lstrip_start l H1), (lstrip_start (rev l) H2).
  apply rev_involutive.
Qed.

Lemma starts_nonspace_Forall (l : list char) :
  Forall nonspace l -> starts_nonspace isspace l.
Proof. intros H. destruct H as [| c l Hc _]; [exact I | exact Hc]. Qed.

Lemma starts_nonspace_app (a b : list char) :
  a <> [] -> starts_nonspace isspace a -> starts_nonspace isspace (a ++ b).
Proof. destruct a as [| c a]; [intros H; contradiction | intros _ H; exact H]. Qed.

Lemma word_trimmed (w : list char) : is_word isspace w -> trimmed isspace w.
Proof.
  intros [_ H]. split; apply starts_nonspace_Forall; [exact H |].
  apply Forall_rev. exact H.
Qed.

Lemma rev_nonempty (l : list char) : l <> [] -> rev l <> [].
Proof.
  intros H E. apply H. rewrite <- (rev_involutive l), E. reflexivity.
Qed.

Lemma joined_line (line w : list char) :
  trimmed isspace line -> is_word isspace w ->
  strip isspace (line ++ [space] ++ w)
    = match line with [] => w | _ => line ++ [space] ++ w end /\
  trimmed isspace (strip isspace (line ++ [space] ++ w)) /\
  strip isspace (line ++ [space] ++ w) <> [].
Proof.
  intros Hline Hw.
  pose proof (word_trimmed w Hw) as Hwt.
  assert (E : strip isspace (line ++ [space] ++ w)
              = match line with [] => w | _ => line ++ [space] ++ w end).
  { destruct line as [| c l].
    - cbn [app]. unfold strip. cbn [lstrip]. rewrite space_isspace.
      apply (strip_trimmed w Hwt).
    - apply strip_trimmed. destruct Hline as [H1 H2]. split.
      + exact H1.
      + rewrite rev_app_distr. apply starts_nonspace_app.
        * apply rev_nonempty. cbn [app]. discriminate.
        * change ([space] ++ w) with (space :: w). cbn [rev].
          apply starts_nonspace_app.
          -- apply rev_nonempty. exact (proj1 Hw).
          -- exact (proj2 Hwt). }
  rewrite E. destruct line as [| c l].
  - split; [reflexivity |]. split; [exact Hwt | exact (proj1 Hw)].
  - split; [reflexivity |]. split; [| discriminate].
    destruct Hline as [H1 H2]. split.
    + exact H1.
    + rewrite rev_app_distr. apply starts_nonspace_app.
      * apply rev_nonempty. cbn [app]. discriminate.
      * change ([space] ++ w) with (space :: w). cbn [rev].
        apply starts_nonspace_app.
        -- apply rev_nonempty. exact (proj1 Hw).
        -- exact (proj2 Hwt).
Qed.

Lemma split_from_app_space (a b acc : list char) :
  split_from isspace (a ++ space :: b) acc
    = split_from isspace a acc ++ split isspace b.
Proof.
  revert acc. induction a as [| c a IH]; intros acc.
  - cbn [app split_from]. rewrite space_isspace.
    destruct acc; reflexivity.
  - cbn [app split_from]. destruct (isspace c).
    + destruct acc; rewrite IH; reflexivity.
    + apply IH.
Qed.

Lemma split_from_nonspace (w s acc : list char) :
  Forall nonspace w ->
  split_from isspace (w ++ s) acc = split_from isspace s (acc ++ w).
Proof.
  revert acc. induction w as [| c w IH]; intros acc H.
  - rewrite app_nil_r. reflexivity.
  - inversion H as [| ? ? Hc Hw]; subst. cbn [app split_from].
    unfold nonspace in Hc. rewrite Hc. rewrite (IH _ Hw), <- app_assoc.
    reflexivity.
Qed.

Lemma split_word (w : list char) : is_word isspace w -> split isspace w = [w].
Proof.
  intros [Hne H]. unfold split.
  rewrite <- (app_nil_r w) at 1. rewrite (split_from_nonspace w [] [] H).
  cbn [app split_from]. destruct w; [contradiction | reflexivity].
Qed.

Lemma split_from_words (s acc : list char) :
  Forall nonspace acc -> Forall (is_word isspace) (split_from isspace s acc).
Proof.
  revert acc. induction s as [| c s IH]; intros acc Hacc.
  - cbn [split_from]. destruct acc as [| a acc]; [constructor |].
    constructor; [| constructor]. split; [discriminate | exact Hacc].
  - cbn [split_from]. destruct (isspace c) eqn:E.
    + destruct acc as [| a acc]; [apply IH; constructor |].
      constructor; [| apply IH; constructor].
      split; [discriminate | exact Hacc].
    + apply IH. apply Forall_app. split; [exact Hacc |].
      constructor; [exact E | constructor].
Qed.

Lemma split_words (s : list char) : Forall (is_word isspace) (split isspace s).
Proof. apply split_from_words. constructor. Qed.

Lemma split_joined (line w : list char) :
  trimmed isspace line -> is_word isspace w ->
  split isspace (strip isspace (line ++ [space] ++ w)) = split isspace line ++ [w].
Proof.
  intros Hline Hw. rewrite (proj1 (joined_line line w Hline Hw)).
  destruct line as [| c l].
  - apply split_word. exact Hw.
  - unfold split at 1. change ([space] ++ w) with (space :: w).
    rewrite split_from_app_space, (split_word w Hw). reflexivity.
Qed.

Variable font : Type.
Variable stringWidth : list char -> font -> Q -> Q.
Variables (width : Q) (fnt : font) (size : Q).
Variable all_words : list (list char).

Let line_ok (ln : list char) : Prop :=
  ln <> [] /\ trimmed isspace ln /\
  (stringWidth ln fnt size <= width \/ In ln all_words).

Lemma append_if_nonempty_ok (lines : list (list char)) (line : list char) :
  Forall line_ok lines -> trimmed isspace line ->
  (line = [] \/ stringWidth line fnt size <= width \/ In line all_words) ->
  Forall line_ok (append_if_nonempty lines line) /\
  List.concat (map (split isspace) (append_if_nonempty lines line))
    = List.concat (map (split isspace) lines) ++ split isspace line.
Proof.
  intros Hlines Ht Hline. destruct line as [| c l].
  - cbn [append_if_nonempty]. split; [exact Hlines |].
    unfold split. cbn [split_from]. rewrite app_nil_r. reflexivity.
  - cbn [append_if_nonempty]. split.
    + apply Forall_app. split; [exact Hlines |].
      constructor; [| constructor].
      split; [discriminate |]. split; [exact Ht |].
      destruct Hline as [H | H]; [discriminate H | exact H].
    + rewrite map_app, concat_app. cbn [map List.concat].
      rewrite app_nil_r. reflexivity.
Qed.

Lemma wrap_loop_spec (words : list (list char)) :
  forall (lines : list (list char)) (line : list char),
    Forall (is_word isspace) words -> incl words all_words ->
    Forall line_ok lines -> trimmed isspace line ->
    (line = [] \/ stringWidth line fnt size <= width \/ In line all_words) ->
    Forall line_ok (wrap_loop isspace space stringWidth width fnt size words lines line) /\
    List.concat (map (split isspace)
                     (wrap_loop isspace space stringWidth width fnt size words lines line))
      = List.concat (map (split isspace) lines) ++ split isspace line ++ words.
Proof.
  induction words as [| w rest IH]; intros lines line Hwords Hincl Hlines Ht Hline.
  - cbn [wrap_loop]. rewrite app_nil_r.
    apply append_if_nonempty_ok; assumption.
  - inversion Hwords as [| ? ? Hw Hrest]; subst.
    assert (Hincl' : incl rest all_words).
    { intros x Hx. apply Hincl. right. exact Hx. }
    destruct (joined_line line w Ht Hw) as [_ [Hjt _]].
    pose proof (split_joined line w Ht Hw) as Hsplit.
    cbn [wrap_loop].
    destruct (stringWidth (strip isspace (line ++ [space] ++ w)) fnt size <=? width)
      eqn:E.
    + apply Qleb_true in E.
      destruct (IH lines (strip isspace (line ++ [space] ++ w))
                   Hrest Hincl' Hlines Hjt (or_intror (or_introl E))) as [A B].
      split; [exact A |]. rewrite B, Hsplit, <- !app_assoc. reflexivity.
    + destruct (append_if_nonempty_ok lines line Hlines Ht Hline) as [Hl' Hc'].
      assert (Hin : In w all_words) by (apply Hincl; left; reflexivity).
      destruct (IH (append_if_nonempty lines line) w Hrest Hincl' Hl'
                   (word_trimmed w Hw) (or_intror (or_intror Hin))) as [A B].
      split; [exact A |]. rewrite B, Hc', (split_word w Hw), <- !app_assoc.
      reflexivity.
Qed.

End WrapFacts.

(** X29.  wrap_lines loses no word and adds none: the words of its lines,
    read in order, are the words of the text.  No line is empty or starts
    or ends with whitespace, and every line is either within the width or
    a single word of the text. *)
Theorem wrap_lines_keeps_words :
  forall (char : Type) (isspace : char -> bool) (space : char) (font : Type)
         (stringWidth : list char -> font -> Q -> Q)
         (text : list char) (width : Q) (fnt : font) (size : Q),
    isspace space = true ->
    let lines := wrap_lines isspace space stringWidth text width fnt size in
    List.concat (map (split isspace) lines) = split isspace text /\
    Forall (fun ln => ln <> [] /\ strip isspace ln = ln /\
                      (stringWidth ln fnt size <= width \/
                       In ln (split isspace text))) lines.
Proof.
  intros char isspace space font stringWidth text width fnt size Hsp lines.
  subst lines. unfold wrap_lines. destruct text as [| c text'].
  - split; [reflexivity | constructor].
  - set (text := c :: text').
    assert (Ht0 : trimmed isspace (@nil char)) by (split; exact I).
    destruct (wrap_loop_spec char isspace space Hsp font stringWidth width fnt size
                (split isspace text) (split isspace text) [] []
                (split_words char isspace text) (incl_refl _)
                (Forall_nil _) Ht0 (or_introl eq_refl)) as [A B].
    split; [exact B |].
    apply (Forall_impl _ (P := fun ln => ln <> [] /\ trimmed isspace ln /\
             (stringWidth ln fnt size <= width \/ In ln (split isspace text))));
      [| exact A].
    intros ln [H1 [H2 H3]]. split; [exact H1 |].
    split; [apply strip_trimmed; exact H2 | exact H3].
Qed.

Lemma wrap_lines_keeps_words_witness :
  wrap_lines ascii_isspace blank half_size_width sample_text 40 tt 10
    = map list_ascii_of_string ["to be or"; "not to"; "be"]%string /\
  List.concat (map (split ascii_isspace)
                   (wrap_lines ascii_isspace blank half_size_width
                               sample_text 40 tt 10))
    = split ascii_isspace sample_text.
Proof.
  split; [reflexivity |].
  exact (proj1 (wrap_lines_keeps_words Ascii.ascii ascii_isspace blank unit
                  half_size_width sample_text 40 tt 10 eq_refl)).
Defined.

Lemma drawn_app {char font : Type} (a b : list (@canvas_op char font)) :
  drawn (a ++ b) = drawn a ++ drawn b.
Proof. unfold drawn. apply flat_map_app. Qed.

Lemma draw_lines_spec {char font : Type} (height : Q) (F_MAIN : font)
      (lines : list (list char)) :
  forall (c : list (@canvas_op char font)) (x y line_h : Q) (fnt : font)
         (size margin : Q),
    margin <= height - margin ->
    exists new,
      fst (draw_lines height F_MAIN c x y lines line_h fnt size margin) = c ++ new /\
      map snd (drawn new) = lines /\
      Forall (fun p => margin <= fst p) (drawn new).
Proof.
  induction lines as [| ln rest IH]; intros c x y line_h fnt size margin Hm.
  - exists []. rewrite app_nil_r. split; [reflexivity |].
    split; [reflexivity | constructor].
  - cbn [draw_lines]. destruct (y <? margin) eqn:E.
    + destruct (IH ((c ++ [ShowPage; SetFont F_MAIN size])
                      ++ [SetFont fnt size; DrawString x (height - margin) ln])
                   x (height - margin - line_h) line_h fnt size margin Hm)
        as [new [E1 [E2 E3]]].
      exists ([ShowPage; SetFont F_MAIN size]
                ++ [SetFont fnt size; DrawString x (height - margin) ln] ++ new).
      split; [rewrite E1, <- !app_assoc; reflexivity |].
      rewrite !drawn_app.
      change (drawn [ShowPage; SetFont F_MAIN size]) with (@nil (Q * list char)).
      change (drawn [SetFont fnt size; DrawString x (height - margin) ln])
        with [(height - margin, ln)].
      cbn [app map snd]. split; [rewrite E2; reflexivity |].
      constructor; [exact Hm | exact E3].
    + apply Qltb_false in E.
      destruct (IH (c ++ [SetFont fnt size; DrawString x y ln])
                   x (y - line_h) line_h fnt size margin Hm)
        as [new [E1 [E2 E3]]].
      exists ([SetFont fnt size; DrawString x y ln] ++ new).
      split; [rewrite E1, <- !app_assoc; reflexivity |].
      rewrite !drawn_app.
      change (drawn [SetFont fnt size; DrawString x y ln]) with [(y, ln)].
      cbn [app map snd]. split; [rewrite E2; reflexivity |].
      constructor; [exact E | exact E3].
Qed.

(** X30.  When the margin is at most half the page height,
    draw_paragraph draws exactly the lines of wrap_lines, in order, after
    what is already on the canvas, and never below the bottom margin;
    draw_list does so for every item with its bullet, one item after the
    other. *)
Theorem draw_list_draws_wrapped_lines :
  forall (char : Type) (isspace : char -> bool) (space : char) (font : Type)
         (stringWidth : list char -> font -> Q -> Q) (height : Q) (F_MAIN : font)
         (c : list (@canvas_op char font)) (x y : Q) (text : list char)
         (items : list (list char)) (width line_h : Q) (bullet : list char)
         (fnt : font) (margin size : Q),
    margin <= height - margin ->
    (exists new,
       fst (draw_paragraph isspace space stringWidth height F_MAIN
                           c x y text width line_h fnt size margin) = c ++ new /\
       map snd (drawn new) = wrap_lines isspace space stringWidth text width fnt size /\
       Forall (fun p => margin <= fst p) (drawn new)) /\
    (exists new,
       fst (draw_list isspace space stringWidth height F_MAIN
                      c x y items width line_h bullet margin size) = c ++ new /\
       map snd (drawn new)
         = flat_map (fun it => wrap_lines isspace space stringWidth (bullet ++ it)
                                          width F_MAIN size) items /\
       Forall (fun p => margin <= fst p) (drawn new)).
Proof.
  intros char isspace space font stringWidth height F_MAIN c x y text items
         width line_h bullet fnt margin size Hm.
  split; [apply draw_lines_spec; exact Hm |].
  revert c y. induction items as [| it rest IH]; intros c y.
  - exists []. rewrite app_nil_r. split; [reflexivity |].
    split; [reflexivity | constructor].
  - cbn [draw_list flat_map].
    destruct (draw_lines_spec height F_MAIN
                (wrap_lines isspace space stringWidth (bullet ++ it) width F_MAIN size)
                c x y line_h F_MAIN size margin Hm) as [new1 [E1 [E2 E3]]].
    fold (draw_paragraph isspace space stringWidth height F_MAIN
                         c x y (bullet ++ it) width line_h F_MAIN size margin) in E1.
    destruct (draw_paragraph isspace space stringWidth height F_MAIN
                             c x y (bullet ++ it) width line_h F_MAIN size margin)
      as [c1 y1].
    cbn [fst] in E1. subst c1.
    destruct (IH (c ++ new1) y1) as [new2 [F1 [F2 F3]]].
    exists (new1 ++ new2).
    split; [rewrite F1, app_assoc; reflexivity |].
    rewrite drawn_app, map_app, E2, F2.
    split; [reflexivity |]. apply Forall_app. split; assumption.
Qed.

Lemma draw_list_draws_wrapped_lines_witness :
  exists new,
    fst (draw_list ascii_isspace blank half_size_width 842 tt
                   [] 57 60 [sample_text] 40 14
                   (list_ascii_of_string "- ") 57 10) = [] ++ new /\
    Forall (fun p => 57 <= fst p) (drawn new).
Proof.
  assert (Hm : 57 <= 842 - 57) by lra.
  destruct (proj2 (draw_list_draws_wrapped_lines Ascii.ascii ascii_isspace blank
                     unit half_size_width 842 tt [] 57 60 [] [sample_text] 40 14
                     (list_ascii_of_string "- ") tt 57 10 Hm))
    as [new [E [_ F]]].
  exists new. split; [exact E | exact F].
Defined.
